(** * ScrollVars: progress, range mapping, flags and the spec mini-language

    A shallow embedding of [scrollvars.js], in two parts.

    In the first part JavaScript numbers are exact rationals ([Q]):
    comparisons, sums, products and quotients are the mathematical ones.
    It carries the parser, the flags and notifications, the driver, and
    the properties that do not depend on how numbers are rounded.  The
    values that are not finite ([NaN], [Infinity]) only arise in
    [Number(...)] and are kept apart in [jsnum]; the division of
    [computeProgress] is taken as a parameter of the function, so that
    what the result owes to it is explicit.

    In the second part (module [B64]) the functions that compute with
    numbers are embedded on the primitive binary64 floats, with
    rounding, overflow and NaN as in JavaScript.  It carries the
    properties that depend on them. *)

From Stdlib Require Import QArith Lqa ZArith Bool List String Ascii Lia.
Import ListNotations.

Open Scope Q_scope.

(** ** Comparisons of numbers, as booleans *)

Definition Qleb (a b : Q) : bool := Qle_bool a b.
Definition Qltb (a b : Q) : bool := negb (Qle_bool b a).
Definition Qgtb (a b : Q) : bool := Qltb b a.
Definition Qgeb (a b : Q) : bool := Qleb b a.

(** ** Geometry read from the DOM on every update

    [rect_top] and [rect_bottom] are the fields of
    [el.getBoundingClientRect()]; [innerHeight] is [window.innerHeight]
    and [clientHeight] is [document.documentElement.clientHeight]. *)

Record Layout := mkLayout {
  rect_top : Q;
  rect_bottom : Q;
  innerHeight : Q;
  clientHeight : Q
}.

(** [window.innerHeight || document.documentElement.clientHeight]:
    the left operand unless it is falsy, which for a number means zero. *)
Definition viewportHeight (el : Layout) : Q :=
  if Qeq_bool (innerHeight el) 0 then clientHeight el else innerHeight el.

(** The two signed distances of [computeProgress]. *)
Definition distA (el : Layout) (start : Q) : Q :=
  rect_top el - start * viewportHeight el.
Definition distB (el : Layout) (end_ : Q) : Q :=
  rect_bottom el - end_ * viewportHeight el.

Section Progress.

(** The division operator of the last branch. *)
Variable divide : Q -> Q -> Q.

Definition computeProgress_by (el : Layout) (start end_ : Q) : Q :=
  let vh := viewportHeight el in
  let startPx := start * vh in
  let endPx := end_ * vh in
  let A := rect_top el - startPx in
  let B := rect_bottom el - endPx in
  if Qgtb A 0 then 0
  else if Qleb B 0 then 1
  else
    let t := divide (- A) (B - A) in
    t.

End Progress.

Definition computeProgress : Layout -> Q -> Q -> Q :=
  computeProgress_by Qdiv.

(** ** Range specifications and the mapping of progress to a value *)

Record Spec := mkSpec {
  name : string;
  min : Q;
  max : Q;
  init : Q
}.

Definition mapByOrigin (t : Q) (s : Spec) (origin : string) : Q :=
  if String.eqb origin "min" then
    min s + t * (max s - min s)
  else if String.eqb origin "center" then
    let mid := (min s + max s) / 2 in
    mid + (t - (1 # 2)) * (max s - min s)
  else
    init s + t * (max s - init s).

Definition clamp01 (t : Q) : Q :=
  if Qltb t 0 then 0 else if Qgtb t 1 then 1 else t.

(** [Math.min] and [Math.max] on two finite numbers; of two equal
    numbers the first is returned. *)
Definition Math_min (a b : Q) : Q := if Qltb b a then b else a.
Definition Math_max (a b : Q) : Q := if Qltb a b then b else a.

(** ** Strings

    A JavaScript string is embedded as a [string] whose characters are
    its code units; the character classes below are those of the code
    units under 256. *)

Open Scope char_scope.

Definition code (c : ascii) : N := N_of_ascii c.

Definition inRange (lo hi : N) (c : ascii) : bool :=
  (lo <=? code c)%N && (code c <=? hi)%N.

(** The class "\d". *)
Definition isDigit (c : ascii) : bool := inRange 48 57 c.

(** The classes "[A-Za-z_\-]" and "[A-Za-z0-9_\-]". *)
Definition isIdentStart (c : ascii) : bool :=
  inRange 65 90 c || inRange 97 122 c || Ascii.eqb c "_" || Ascii.eqb c "-".
Definition isIdentChar (c : ascii) : bool :=
  inRange 65 90 c || inRange 97 122 c || isDigit c
  || Ascii.eqb c "_" || Ascii.eqb c "-".

(** A line terminator: what [.] does not match. *)
Definition isLineTerminator (c : ascii) : bool :=
  (code c =? 10)%N || (code c =? 13)%N.

(** White space and line terminators: what "\s" matches, what [trim]
    removes and what [Number] skips at both ends (tab, line feed,
    vertical tab, form feed, carriage return, space, no-break space). *)
Definition isSpace (c : ascii) : bool :=
  inRange 9 13 c || (code c =? 32)%N || (code c =? 160)%N.

Definition isEmpty (s : string) : bool :=
  match s with EmptyString => true | String _ _ => false end.

Fixpoint allChars (p : ascii -> bool) (s : string) : bool :=
  match s with
  | EmptyString => true
  | String c r => p c && allChars p r
  end.

Fixpoint hasChar (x : ascii) (s : string) : bool :=
  match s with
  | EmptyString => false
  | String c r => Ascii.eqb c x || hasChar x r
  end.

(** The longest prefix of characters in [p], and what follows it. *)
Fixpoint span (p : ascii -> bool) (s : string) : string * string :=
  match s with
  | EmptyString => (EmptyString, EmptyString)
  | String c r =>
      if p c then let (a, b) := span p r in (String c a, b)
      else (EmptyString, s)
  end.

(** The text before the first [x], and the text after it when there is one. *)
Fixpoint breakAt (x : ascii) (s : string) : string * option string :=
  match s with
  | EmptyString => (EmptyString, None)
  | String c r =>
      if Ascii.eqb c x then (EmptyString, Some r)
      else let (a, b) := breakAt x r in (String c a, b)
  end.

Fixpoint lastChar (d : ascii) (s : string) : ascii :=
  match s with
  | EmptyString => d
  | String c r => lastChar c r
  end.

(** [s.split(sep)] for a one-character separator. *)
Fixpoint split (sep : ascii) (s : string) : list string :=
  match s with
  | EmptyString => [EmptyString]
  | String c r =>
      if Ascii.eqb c sep then EmptyString :: split sep r
      else match split sep r with
           | h :: t => String c h :: t
           | [] => [String c EmptyString]
           end
  end.

Fixpoint trimStart (s : string) : string :=
  match s with
  | EmptyString => EmptyString
  | String c r => if isSpace c then trimStart r else s
  end.

Fixpoint trimEnd (s : string) : string :=
  match s with
  | EmptyString => EmptyString
  | String c r =>
      let r' := trimEnd r in
      if isSpace c && isEmpty r' then EmptyString else String c r'
  end.

Definition trim (s : string) : string := trimEnd (trimStart s).

(** ** [Number(string)]

    A finite result is the exact value of the literal; a literal whose
    value would round to an infinity of binary64 gives that infinity. *)

Inductive jsnum :=
| Fin (q : Q)
| Inf (negative : bool)
| NaN.

Definition isFinite (n : jsnum) : bool :=
  match n with Fin _ => true | _ => false end.

(** The value of a digit in bases up to 16; 16 for any other character. *)
Definition digitValue (c : ascii) : Z :=
  (if isDigit c then Z.of_N (code c) - 48
   else if inRange 97 102 c then Z.of_N (code c) - 87
   else if inRange 65 70 c then Z.of_N (code c) - 55
   else 16)%Z.

Definition isDigitOf (base : Z) (c : ascii) : bool :=
  (digitValue c <? base)%Z.

Fixpoint digitsValue (base : Z) (acc : Z) (s : string) : Z :=
  match s with
  | EmptyString => acc
  | String c r => digitsValue base (acc * base + digitValue c)%Z r
  end.

(** Magnitudes from [2^1024 - 2^970] on round to an infinity. *)
Definition overflowBound : Q := inject_Z (2 ^ 1024 - 2 ^ 970).

Definition signed (negative : bool) (v : Q) : jsnum :=
  if Qleb overflowBound v then Inf negative
  else Fin (if negative then - v else v).

(** Splits an optional sign off: [true] for [-]. *)
Definition takeSign (s : string) : bool * string :=
  match s with
  | String "+" r => (false, r)
  | String "-" r => (true, r)
  | _ => (false, s)
  end.

(** ExponentPart, or nothing, up to the end of the string. *)
Definition parseExponent (s : string) : option Z :=
  match s with
  | EmptyString => Some 0%Z
  | String c r =>
      if Ascii.eqb c "e" || Ascii.eqb c "E" then
        let (neg, r1) := takeSign r in
        let (ds, r2) := span isDigit r1 in
        if isEmpty ds || negb (isEmpty r2) then None
        else Some (if neg then - digitsValue 10 0 ds else digitsValue 10 0 ds)%Z
      else None
  end.

(** StrUnsignedDecimalLiteral other than [Infinity]:
    digits [.] digits? exponent?, [.] digits exponent?, digits exponent?. *)
Definition parseUnsignedDecimal (s : string) : option Q :=
  let (ip, r1) := span isDigit s in
  let (fp, r2) :=
    match r1 with
    | String "." r => span isDigit r
    | _ => (EmptyString, r1)
    end in
  if isEmpty ip && isEmpty fp then None
  else
    match parseExponent r2 with
    | Some e =>
        Some (inject_Z (digitsValue 10 0 (ip ++ fp))
              * inject_Z 10 ^ (e - Z.of_nat (String.length fp)))
    | None => None
    end.

(** NonDecimalIntegerLiteral: the digits after [0x], [0o] or [0b]. *)
Definition parseRadix (base : Z) (ds : string) : jsnum :=
  if isEmpty ds || negb (allChars (isDigitOf base) ds) then NaN
  else signed false (inject_Z (digitsValue base 0 ds)).

Definition parseDecimal (s : string) : jsnum :=
  let (neg, r) := takeSign s in
  if String.eqb r "Infinity" then Inf neg
  else
    match parseUnsignedDecimal r with
    | Some v => signed neg v
    | None => NaN
    end.

Definition Number (v : string) : jsnum :=
  match trim v with
  | EmptyString => Fin 0
  | String "0" (String c r) as lit =>
      if Ascii.eqb c "x" || Ascii.eqb c "X" then parseRadix 16 r
      else if Ascii.eqb c "o" || Ascii.eqb c "O" then parseRadix 8 r
      else if Ascii.eqb c "b" || Ascii.eqb c "B" then parseRadix 2 r
      else parseDecimal lit
  | lit => parseDecimal lit
  end.

(** [toNum(v, def)] on an attribute value ([None] for [null]). *)
Definition toNum (v : option string) (def : Q) : Q :=
  match v with
  | None => def
  | Some EmptyString => def
  | Some s =>
      match Number s with
      | Fin n => n
      | _ => def
      end
  end.

(** ** The spec mini-language *)

(** The first pattern of [parseSpec], anchored at both ends: group 1
    "[A-Za-z_\-][A-Za-z0-9_\-]*", then "\s*=\s*", group 2 "[^@]+?", then
    optionally "@" and group 3 ".+".  The name is the longest run of
    name characters; group 2 cannot hold an [@] and must end where the
    rest of the pattern matches, which is the end of the string or the
    first [@]; the white space skipped before it leaves it one
    character when the text before that point is all white space;
    group 3 is the whole text after the first [@], which must be
    non-empty and free of line terminators. *)
Definition matchEntry (part : string)
  : option (string * string * option string) :=
  match part with
  | EmptyString => None
  | String c0 _ =>
      if isIdentStart c0 then
        let (nm, r1) := span isIdentChar part in
        match trimStart r1 with
        | String "=" r2 =>
            let (pre, post) := breakAt "@" r2 in
            if isEmpty pre then None
            else
              let body := trimStart pre in
              let group2 :=
                if isEmpty body then String (lastChar " " pre) EmptyString
                else body in
              match post with
              | None => Some (nm, group2, None)
              | Some p =>
                  if isEmpty p || negb (allChars (fun c => negb (isLineTerminator c)) p)
                  then None
                  else Some (nm, group2, Some p)
              end
        | _ => None
        end
      else None
  end.

(** The pattern "[+\-]?\d+(?:\.\d+)?" at the head of [s]: the text matched and the
    rest.  The fraction is taken exactly when a digit follows the dot. *)
Definition matchNumber (s : string) : option (string * string) :=
  let (sg, r0) :=
    match s with
    | String "+" r => ("+"%string, r)
    | String "-" r => ("-"%string, r)
    | _ => (EmptyString, s)
    end in
  let (ds, r1) := span isDigit r0 in
  if isEmpty ds then None
  else
    match r1 with
    | String "." r2 =>
        let (fs, r3) := span isDigit r2 in
        if isEmpty fs then Some ((sg ++ ds)%string, r1)
        else Some ((sg ++ ds ++ "." ++ fs)%string, r3)
    | _ => Some ((sg ++ ds)%string, r1)
    end.

(** The second pattern of [parseSpec], anchored at both ends: white
    space, a number (group 1), white space, two dots, white space, a
    number (group 2), white space. *)
Definition matchRange (range : string) : option (string * string) :=
  match matchNumber (trimStart range) with
  | Some (n1, r1) =>
      match trimStart r1 with
      | String "." (String "." r2) =>
          match matchNumber (trimStart r2) with
          | Some (n2, r3) =>
              if isEmpty (trimStart r3) then Some (n1, n2) else None
          | None => None
          end
      | _ => None
      end
  | None => None
  end.

(** One turn of the loop of [parseSpec]: the entries it pushes. *)
Definition parsePart (part : string) : list Spec :=
  match matchEntry part with
  | None => []
  | Some (nm, m2, m3) =>
      let range := trim m2 in
      let initRaw := option_map trim m3 in
      match matchRange range with
      | None => []
      | Some (n1, n2) =>
          let min := Number n1 in
          let max := Number n2 in
          let init :=
            match initRaw with
            | Some r => Number r
            | None => min
            end in
          match min, max, init with
          | Fin mn, Fin mx, Fin i => [mkSpec nm mn mx i]
          | _, _, _ => []
          end
      end
  end.

(** The number that [parsePart] takes for [init]. *)
Definition initNumber (n1 : string) (m3 : option string) : jsnum :=
  match m3 with
  | Some r => Number (trim r)
  | None => Number n1
  end.

(** [raw.split(";").map(s => s.trim()).filter(Boolean)]. *)
Definition parts (raw : string) : list string :=
  filter (fun s => negb (isEmpty s)) (map trim (split ";" raw)).

(** [parseSpec(raw)], [None] being [null]. *)
Definition parseSpec (raw : option string) : list Spec :=
  match raw with
  | None => []
  | Some EmptyString => []
  | Some s => flat_map parsePart (parts s)
  end.

Close Scope char_scope.

(** ** Options, elements and instances *)

Open Scope string_scope.
Open Scope list_scope.

Record Options := mkOptions {
  startAttr : string;
  endAttr : string;
  specAttr : string;
  originAttr : string;
  activeClass : string;
  startedClass : string;
  endedClass : string;
  clamp : bool;
  threshold : Q;
  initUntilStart : bool;
  progressOrigin : string
}.

Definition DEFAULTS : Options :=
  {| startAttr := "data-sv-start";
     endAttr := "data-sv-end";
     specAttr := "data-sv";
     originAttr := "data-sv-origin";
     activeClass := "is-sv-active";
     startedClass := "is-sv-started";
     endedClass := "is-sv-ended";
     clamp := true;
     threshold := 5 # 10000;
     initUntilStart := true;
     progressOrigin := "init" |}.


(** The attributes of an element. *)
Definition Element := list (string * string).

Fixpoint getAttribute (el : Element) (attr : string) : option string :=
  match el with
  | [] => None
  | (k, v) :: r => if String.eqb k attr then Some v else getAttribute r attr
  end.

(** What a method does to the element, in order: [style.setProperty]
    (with the number that [String] is applied to), [classList.toggle]
    and [dispatchEvent] of a [CustomEvent] with detail [{ t }]. *)
Inductive effect :=
| SetProperty (property : string) (value : Q)
| ClassToggle (class : string) (force : bool)
| DispatchEvent (type : string) (t : Q).

Record Instance := mkInstance {
  opts : Options;
  specs : list Spec;
  start : Q;
  end_ : Q;
  origin : string;
  t : Q;
  active : bool;
  started : bool;
  ended : bool
}.

Definition setT (this : Instance) (v : Q) : Instance :=
  {| opts := opts this; specs := specs this; start := start this;
     end_ := end_ this; origin := origin this; t := v;
     active := active this; started := started this; ended := ended this |}.

Definition setFlags (this : Instance) (isActive isStarted isEnded : bool)
  : Instance :=
  {| opts := opts this; specs := specs this; start := start this;
     end_ := end_ this; origin := origin this; t := t this;
     active := isActive; started := isStarted; ended := isEnded |}.

(** The body of the constructor's loop on one spec: [init] is brought
    above [min], then below [max]. *)
Definition clampInit (s : Spec) : Spec :=
  let i1 := if Qltb (init s) (min s) then min s else init s in
  let i2 := if Qgtb i1 (max s) then max s else i1 in
  {| name := name s; min := min s; max := max s; init := i2 |}.

Definition when (b : bool) (e : effect) : list effect :=
  if b then [e] else [].

Definition updateClasses (this : Instance) (t : Q) (initial : bool)
  : Instance * list effect :=
  let o := opts this in
  let wasActive := active this in
  let wasStarted := started this in
  let wasEnded := ended this in
  let isStarted := Qgtb t (threshold o) in
  let isEnded := Qgeb t (1 - threshold o) in
  let isActive := Qgtb t (threshold o) && Qltb t (1 - threshold o) in
  (setFlags this isActive isStarted isEnded,
   [ ClassToggle (activeClass o) isActive;
     ClassToggle (startedClass o) isStarted;
     ClassToggle (endedClass o) isEnded ]
   ++ (if initial then []
       else
         when (negb wasStarted && isStarted) (DispatchEvent "sv:start" t)
         ++ when (negb wasActive && isActive) (DispatchEvent "sv:enter" t)
         ++ when (wasActive && negb isActive) (DispatchEvent "sv:leave" t)
         ++ when (negb wasEnded && isEnded) (DispatchEvent "sv:end" t))).

(** The origin of an instance: the element's attribute when it is one
    of the three modes, the option otherwise. *)
Definition chooseOrigin (attr : option string) (o : Options) : string :=
  match attr with
  | Some a =>
      if String.eqb a "min" || String.eqb a "center" || String.eqb a "init"
      then a else progressOrigin o
  | None => progressOrigin o
  end.

(** [new Instance(el, opts)]. *)
Definition newInstance (el : Element) (o : Options) : Instance * list effect :=
  let specs1 := map clampInit (parseSpec (getAttribute el (specAttr o))) in
  let this :=
    {| opts := o;
       specs := specs1;
       start := toNum (getAttribute el (startAttr o)) 0;
       end_ := toNum (getAttribute el (endAttr o)) 1;
       origin := chooseOrigin (getAttribute el (originAttr o)) o;
       t := 0; active := false; started := false; ended := false |} in
  let (this', classes) := updateClasses this 0 true in
  (this', map (fun s => SetProperty (name s) (init s)) specs1 ++ classes).

(** The value that one turn of the loop of [update] sets for [s]. *)
Definition appliedValue (this : Instance) (t : Q) (s : Spec) : Q :=
  let isStarted := Qgtb t (threshold (opts this)) in
  let v :=
    if initUntilStart (opts this) && negb isStarted then init s
    else mapByOrigin t s (origin this) in
  let vv := Math_max (Math_min v (max s)) (min s) in
  vv.

(** The progress that [update] reads for a layout. *)
Definition progressOf (this : Instance) (el : Layout) : Q :=
  let t := computeProgress el (start this) (end_ this) in
  if clamp (opts this) then clamp01 t else t.

Definition update (this : Instance) (el : Layout) : Instance * list effect :=
  let t := progressOf this el in
  let this1 := setT this t in
  let values :=
    map (fun s => SetProperty (name s) (appliedValue this1 t s)) (specs this1) in
  let (this2, classes) := updateClasses this1 t false in
  (this2, values ++ classes).

(** [ScrollVars._update] over the successive layouts of one element:
    the instance after the last one, and everything done to the element. *)
Fixpoint run (this : Instance) (els : list Layout) : Instance * list effect :=
  match els with
  | [] => (this, [])
  | el :: r =>
      let (this1, fx) := update this el in
      let (this2, fx') := run this1 r in
      (this2, fx ++ fx')
  end.

(** ** Reading the effects *)

Definition eventsOf (fx : list effect) : list (string * Q) :=
  flat_map (fun e => match e with
                     | DispatchEvent ty t => [(ty, t)]
                     | _ => []
                     end) fx.

Definition valuesOf (fx : list effect) : list (string * Q) :=
  flat_map (fun e => match e with
                     | SetProperty p v => [(p, v)]
                     | _ => []
                     end) fx.




(** ** Concrete elements and layouts *)


(** An element half way through, and one not yet at the start line. *)
Definition layoutHalfWay : Layout := mkLayout (-50) 150 100 100.
Definition layoutBefore : Layout := mkLayout 50 250 100 100.
Definition layoutAfter : Layout := mkLayout (-250) (-50) 100 100.

Definition reversedElement : Element :=
  [("data-sv", "--x=5..0@3"); ("data-sv-origin", "min")].

Definition plainElement : Element :=
  [("data-sv", "--x=-5..5@0;--scale=0..1")].

Definition reversedInstance : Instance :=
  fst (newInstance reversedElement DEFAULTS).

(** An element 2000px tall in a viewport of 1000px, its top edge at
    [top]: its progress is [- top / 1000] between the two lines. *)
Definition tall (top : Q) : Layout := mkLayout top (top + 2000) 1000 1000.

(** The digit [0], [n] times. *)
Fixpoint zeros (n : nat) : string :=
  match n with
  | O => EmptyString
  | S k => String "0"%char (zeros k)
  end.

(** ** The driver: ticks and resizes

    The closure of [ScrollVars._bind]: its variables, the handlers it
    registers and what they ask of the page, which is to call
    [requestAnimationFrame(onTick)] or to run [_update]. *)

From Stdlib Require Qabs.

(** The options that only the driver reads. *)
Record DriverOptions := mkDriverOptions {
  smartResize : bool;
  resizeMinDelta : Q;
  useVisualViewport : bool
}.

Definition DRIVER_DEFAULTS : DriverOptions :=
  {| smartResize := true; resizeMinDelta := 1; useVisualViewport := true |}.

(** The variables of the closure; [vvListening] tells whether
    [_onVvResize] was registered. *)
Record Ticker := mkTicker {
  ticking : bool;
  lastW : Q;
  lastH : Q;
  lastVVW : Q;
  lastVVH : Q;
  vvListening : bool
}.

Inductive action :=
| RequestFrame
| CallUpdate.

Definition setTicking (b : bool) (k : Ticker) : Ticker :=
  {| ticking := b; lastW := lastW k; lastH := lastH k;
     lastVVW := lastVVW k; lastVVH := lastVVH k;
     vvListening := vvListening k |}.

Definition setLast (w h : Q) (k : Ticker) : Ticker :=
  {| ticking := ticking k; lastW := w; lastH := h;
     lastVVW := lastVVW k; lastVVH := lastVVH k;
     vvListening := vvListening k |}.

Definition setLastVV (w h : Q) (k : Ticker) : Ticker :=
  {| ticking := ticking k; lastW := lastW k; lastH := lastH k;
     lastVVW := w; lastVVH := h;
     vvListening := vvListening k |}.

Definition onTick (k : Ticker) : Ticker * list action :=
  (setTicking false k, [CallUpdate]).

Definition requestTick (k : Ticker) : Ticker * list action :=
  if negb (ticking k) then (setTicking true k, [RequestFrame])
  else (k, []).

(** [handleResize], [w] and [h] being [window.innerWidth] and
    [window.innerHeight] at the event. *)
Definition handleResize (o : DriverOptions) (w h : Q) (k : Ticker)
  : Ticker * list action :=
  if negb (smartResize o) then requestTick k
  else
    let wChanged := negb (Qeq_bool w (lastW k)) in
    let hDelta := Qabs.Qabs (h - lastH k) in
    if wChanged || Qgeb hDelta (resizeMinDelta o) then
      requestTick (setLast w h k)
    else (k, []).

(** [_onVvResize], [w] and [h] being the size of [window.visualViewport]. *)
Definition onVvResize (o : DriverOptions) (w h : Q) (k : Ticker)
  : Ticker * list action :=
  let wChanged := negb (Qeq_bool w (lastVVW k)) in
  let hDelta := Qabs.Qabs (h - lastVVH k) in
  if wChanged || Qgeb hDelta (resizeMinDelta o) then
    requestTick (setLastVV w h k)
  else (k, []).

(** The closure as [_bind] creates it, from the sizes of the window and
    of the visual viewport ([None] when there is none). *)
Definition _bind (o : DriverOptions) (w h : Q) (vv : option (Q * Q)) : Ticker :=
  {| ticking := false; lastW := w; lastH := h;
     lastVVW := match vv with Some (vw, _) => vw | None => 0 end;
     lastVVH := match vv with Some (_, vh) => vh | None => 0 end;
     vvListening :=
       useVisualViewport o
       && match vv with Some _ => true | None => false end |}.

(** What the page sends to the handlers; [Frame] is the browser running
    the animation frame callbacks. *)
Inductive event :=
| Scroll
| Resize (w h : Q)
| VvResize (w h : Q)
| OrientationChange
| Load
| Observed
| Frame.

(** The closure and the number of callbacks waiting for the next frame. *)
Record Page := mkPage {
  ticker : Ticker;
  pending : nat
}.

Definition countRequests (l : list action) : nat :=
  List.length (filter (fun a => match a with RequestFrame => true | _ => false end) l).

Definition countUpdates (l : list action) : nat :=
  List.length (filter (fun a => match a with CallUpdate => true | _ => false end) l).

Definition listen (p : Page) (r : Ticker * list action) : Page * list action :=
  (mkPage (fst r) (pending p + countRequests (snd r)), snd r).

Fixpoint runCallbacks (n : nat) (k : Ticker) : Ticker * list action :=
  match n with
  | O => (k, [])
  | S m =>
      let (k1, a1) := onTick k in
      let (k2, a2) := runCallbacks m k1 in
      (k2, a1 ++ a2)
  end.

Definition dispatch (o : DriverOptions) (p : Page) (e : event)
  : Page * list action :=
  match e with
  | Scroll => listen p (requestTick (ticker p))
  | Resize w h => listen p (handleResize o w h (ticker p))
  | VvResize w h =>
      if vvListening (ticker p) then listen p (onVvResize o w h (ticker p))
      else (p, [])
  | OrientationChange => listen p (requestTick (ticker p))
  | Load => (p, [CallUpdate])
  | Observed => listen p (requestTick (ticker p))
  | Frame =>
      let (k, acts) := runCallbacks (pending p) (ticker p) in
      (mkPage k 0, acts)
  end.

Fixpoint dispatchAll (o : DriverOptions) (p : Page) (es : list event)
  : Page * list action :=
  match es with
  | [] => (p, [])
  | e :: r =>
      let (p1, a1) := dispatch o p e in
      let (p2, a2) := dispatchAll o p1 r in
      (p2, a1 ++ a2)
  end.

Definition isFrame (e : event) : bool :=
  match e with Frame => true | _ => false end.

Definition isLoad (e : event) : bool :=
  match e with Load => true | _ => false end.

(** The events whose handler is [requestTick] itself. *)
Definition alwaysRequests (e : event) : bool :=
  match e with
  | Scroll | OrientationChange | Observed => true
  | _ => false
  end.

(** ** Reading a run *)

Definition countType (type : string) (evs : list (string * Q)) : nat :=
  List.length (filter (fun p => String.eqb (fst p) type) evs).

(** The notification list of one test of [updateClasses]. *)
Definition notify (b : bool) (type : string) (v : Q) : list (string * Q) :=
  if b then [(type, v)] else [].

Definition b2n (b : bool) : nat := if b then 1%nat else 0%nat.

(** A name of the first group of the entry pattern. *)
Definition isIdentifier (s : string) : bool :=
  match s with
  | EmptyString => false
  | String c r => isIdentStart c && allChars isIdentChar r
  end.

Definition resizeEvents (sizes : list (Q * Q)) : list event :=
  map (fun wh => Resize (fst wh) (snd wh)) sizes.

(** A page is consistent when a callback waits for the next frame
    exactly while [ticking] is set. *)
Definition consistent (p : Page) : Prop :=
  pending p = b2n (ticking (ticker p)).


(** ** A bound under which the distance [A] cannot overflow

    With the element's top and the product [start * viewportHeight] at
    most [2^1022] in magnitude, the rounded product and the rounded
    difference [A] are finite binary64 numbers. *)



(** The layout of an element moved up by [d] pixels in the same viewport. *)
Definition scrollUp (d : Q) (el : Layout) : Layout :=
  {| rect_top := rect_top el - d;
     rect_bottom := rect_bottom el - d;
     innerHeight := innerHeight el;
     clientHeight := clientHeight el |}.

(** * The numeric code on binary64 numbers

    The functions that compute with numbers, once more, on the
    primitive binary64 floats: every sum, difference, product and
    quotient is rounded to nearest-even, overflows to an infinity, and
    can be NaN, as in JavaScript; [<?], [<=?] and [=?] are false on
    NaN.  The parsed specs and the start and end fractions are taken
    as doubles. *)

From Stdlib Require PrimFloat FloatAxioms SpecFloat FloatClass.
Set Warnings "-inexact-float".

Module B64.

Import PrimFloat.
#[local] Open Scope float_scope.

Definition gtb (a b : float) : bool := b <? a.
Definition geb (a b : float) : bool := b <=? a.

Record Layout := mkLayout {
  rect_top : float;
  rect_bottom : float;
  innerHeight : float;
  clientHeight : float
}.

(** [window.innerHeight || document.documentElement.clientHeight]: a
    number is falsy when it is a zero or NaN. *)
Definition viewportHeight (el : Layout) : float :=
  if is_zero (innerHeight el) || is_nan (innerHeight el)
  then clientHeight el else innerHeight el.

Definition distA (el : Layout) (start : float) : float :=
  rect_top el - start * viewportHeight el.
Definition distB (el : Layout) (end_ : float) : float :=
  rect_bottom el - end_ * viewportHeight el.

Definition computeProgress (el : Layout) (start end_ : float) : float :=
  let vh := viewportHeight el in
  let startPx := start * vh in
  let endPx := end_ * vh in
  let A := rect_top el - startPx in
  let B := rect_bottom el - endPx in
  if gtb A 0 then 0
  else if B <=? 0 then 1
  else
    let t := - A / (B - A) in
    t.

Definition scrollUp (d : float) (el : Layout) : Layout :=
  {| rect_top := rect_top el - d;
     rect_bottom := rect_bottom el - d;
     innerHeight := innerHeight el;
     clientHeight := clientHeight el |}.

Record Spec := mkSpec {
  name : string;
  min : float;
  max : float;
  init : float
}.

Definition mapByOrigin (t : float) (s : Spec) (origin : string) : float :=
  if String.eqb origin "min" then
    min s + t * (max s - min s)
  else if String.eqb origin "center" then
    let mid := (min s + max s) / 2 in
    mid + (t - 0.5) * (max s - min s)
  else
    init s + t * (max s - init s).

Definition clamp01 (t : float) : float :=
  if t <? 0 then 0 else if gtb t 1 then 1 else t.

Definition isNegZero (x : float) : bool :=
  match classify x with FloatClass.NZero => true | _ => false end.

Definition isPosZero (x : float) : bool :=
  match classify x with FloatClass.PZero => true | _ => false end.

(** [Math.min] and [Math.max] of two numbers: NaN when either is NaN,
    and [-0] counts as smaller than [+0]. *)
Definition Math_min (a b : float) : float :=
  if is_nan a || is_nan b then nan
  else if a <? b then a
  else if b <? a then b
  else if isNegZero a then a else b.

Definition Math_max (a b : float) : float :=
  if is_nan a || is_nan b then nan
  else if a <? b then b
  else if b <? a then a
  else if isPosZero a then a else b.

Record Options := mkOptions {
  activeClass : string;
  startedClass : string;
  endedClass : string;
  clamp : bool;
  threshold : float;
  initUntilStart : bool;
  progressOrigin : string
}.

Definition DEFAULTS : Options :=
  {| activeClass := "is-sv-active";
     startedClass := "is-sv-started";
     endedClass := "is-sv-ended";
     clamp := true;
     threshold := 0.0005;
     initUntilStart := true;
     progressOrigin := "init" |}.

Inductive effect :=
| SetProperty (property : string) (value : float)
| ClassToggle (class : string) (force : bool)
| DispatchEvent (type : string) (t : float).

Record Instance := mkInstance {
  opts : Options;
  specs : list Spec;
  start : float;
  end_ : float;
  origin : string;
  t : float;
  active : bool;
  started : bool;
  ended : bool
}.

Definition setT (this : Instance) (v : float) : Instance :=
  {| opts := opts this; specs := specs this; start := start this;
     end_ := end_ this; origin := origin this; t := v;
     active := active this; started := started this; ended := ended this |}.

Definition setFlags (this : Instance) (isActive isStarted isEnded : bool)
  : Instance :=
  {| opts := opts this; specs := specs this; start := start this;
     end_ := end_ this; origin := origin this; t := t this;
     active := isActive; started := isStarted; ended := isEnded |}.

Definition clampInit (s : Spec) : Spec :=
  let i1 := if init s <? min s then min s else init s in
  let i2 := if gtb i1 (max s) then max s else i1 in
  {| name := name s; min := min s; max := max s; init := i2 |}.

Definition when (b : bool) (e : effect) : list effect :=
  if b then [e] else [].

Definition updateClasses (this : Instance) (t : float) (initial : bool)
  : Instance * list effect :=
  let o := opts this in
  let wasActive := active this in
  let wasStarted := started this in
  let wasEnded := ended this in
  let isStarted := gtb t (threshold o) in
  let isEnded := geb t (1 - threshold o) in
  let isActive := gtb t (threshold o) && (t <? 1 - threshold o) in
  (setFlags this isActive isStarted isEnded,
   [ ClassToggle (activeClass o) isActive;
     ClassToggle (startedClass o) isStarted;
     ClassToggle (endedClass o) isEnded ]
   ++ (if initial then []
       else
         when (negb wasStarted && isStarted) (DispatchEvent "sv:start" t)
         ++ when (negb wasActive && isActive) (DispatchEvent "sv:enter" t)
         ++ when (wasActive && negb isActive) (DispatchEvent "sv:leave" t)
         ++ when (negb wasEnded && isEnded) (DispatchEvent "sv:end" t))).

(** [new Instance(el, opts)], from what the constructor reads of the
    element: the list that [parseSpec] returns, the two numbers that
    [toNum] returns and the origin attribute. *)
Definition newInstance (parsed : list Spec) (start end_ : float)
    (originAttr : option string) (o : Options) : Instance * list effect :=
  let specs1 := map clampInit parsed in
  let this :=
    {| opts := o;
       specs := specs1;
       start := start;
       end_ := end_;
       origin :=
         match originAttr with
         | Some a =>
             if String.eqb a "min" || String.eqb a "center"
                || String.eqb a "init"
             then a else progressOrigin o
         | None => progressOrigin o
         end;
       t := 0; active := false; started := false; ended := false |} in
  let (this', classes) := updateClasses this 0 true in
  (this', map (fun s => SetProperty (name s) (init s)) specs1 ++ classes).

(** The value of [update] before the clamp, and after it. *)
Definition rawValue (this : Instance) (t : float) (s : Spec) : float :=
  let isStarted := gtb t (threshold (opts this)) in
  if initUntilStart (opts this) && negb isStarted then init s
  else mapByOrigin t s (origin this).

Definition appliedValue (this : Instance) (t : float) (s : Spec) : float :=
  let v := rawValue this t s in
  let vv := Math_max (Math_min v (max s)) (min s) in
  vv.

Definition progressOf (this : Instance) (el : Layout) : float :=
  let t := computeProgress el (start this) (end_ this) in
  if clamp (opts this) then clamp01 t else t.

Definition update (this : Instance) (el : Layout) : Instance * list effect :=
  let t := progressOf this el in
  let this1 := setT this t in
  let values :=
    map (fun s => SetProperty (name s) (appliedValue this1 t s)) (specs this1) in
  let (this2, classes) := updateClasses this1 t false in
  (this2, values ++ classes).

Definition valuesOf (fx : list effect) : list (string * float) :=
  flat_map (fun e => match e with
                     | SetProperty p v => [(p, v)]
                     | _ => []
                     end) fx.

(** A number that is neither NaN nor an infinity. *)
Definition finite (x : float) : bool :=
  match classify x with
  | FloatClass.NaN | FloatClass.PInf | FloatClass.NInf => false
  | _ => true
  end.

(** *** Concrete layouts and instances *)

Definition layoutInView : Layout := mkLayout 10 50 100 100.
Definition layoutBefore : Layout := mkLayout 50 250 100 100.
Definition layoutAfter : Layout := mkLayout (-250) (-50) 100 100.
Definition layoutHalfWay : Layout := mkLayout (-50) 150 100 100.

(** An element whose top is on the rounded start line: [0.15 * 360] is
    rounded to [54]. *)
Definition layoutRoundedLine : Layout := mkLayout 54 100 360 360.

(** An element just above a start line that is rounded down:
    [0.58 * 100] is rounded to [57.99999999999999]. *)
Definition layoutRoundedDown : Layout := mkLayout 58 90 100 100.





Definition reversedInstance : Instance :=
  fst (newInstance [mkSpec "--x" 5 0 3] 0 1 (Some "min") DEFAULTS).

Definition plainInstance : Instance :=
  fst (newInstance [mkSpec "--x" (-5) 5 0; mkSpec "--scale" 0 1 0] 0 1 None
         DEFAULTS).

End B64.

(** *** The order of binary64 numbers

    [SFcompare] compares two numbers other than NaN as the triples
    below compare lexicographically. *)

Definition key (f : SpecFloat.spec_float) : Z * Z * Z :=
  match f with
  | SpecFloat.S754_nan => (0, 0, 0)%Z
  | SpecFloat.S754_infinity true => (-2, 0, 0)%Z
  | SpecFloat.S754_finite true m e => (-1, - e, - Z.pos m)%Z
  | SpecFloat.S754_zero _ => (0, 0, 0)%Z
  | SpecFloat.S754_finite false m e => (1, e, Z.pos m)%Z
  | SpecFloat.S754_infinity false => (2, 0, 0)%Z
  end.

Definition klt (a b : Z * Z * Z) : Prop :=
  (fst (fst a) < fst (fst b) \/
   (fst (fst a) = fst (fst b) /\
    (snd (fst a) < snd (fst b) \/
     (snd (fst a) = snd (fst b) /\ snd a < snd b))))%Z.

Definition kle (a b : Z * Z * Z) : Prop := ~ klt b a.

Definition fkey (x : PrimFloat.float) : Z * Z * Z :=
  key (FloatOps.Prim2SF x).
(** * Properties *)

(** ** Basic facts on the comparisons *)

Lemma Qleb_le (a b : Q) : Qleb a b = true <-> a <= b.
Proof. apply Qle_bool_iff. Qed.

Lemma Qleb_gt (a b : Q) : Qleb a b = false <-> b < a.
Proof.
  unfold Qleb. split; intro H.
  - apply Qnot_le_lt. intro Hle. apply Qle_bool_iff in Hle. congruence.
  - destruct (Qle_bool a b) eqn:E; [|reflexivity].
    apply Qle_bool_iff in E. exfalso. apply (Qlt_not_le _ _ H E).
Qed.

Lemma Qltb_lt (a b : Q) : Qltb a b = true <-> a < b.
Proof.
  unfold Qltb. rewrite negb_true_iff. apply Qleb_gt.
Qed.

Lemma Qltb_ge (a b : Q) : Qltb a b = false <-> b <= a.
Proof.
  unfold Qltb. rewrite negb_false_iff. apply Qleb_le.
Qed.

Lemma Qgtb_gt (a b : Q) : Qgtb a b = true <-> b < a.
Proof. apply Qltb_lt. Qed.

Lemma Qgtb_le (a b : Q) : Qgtb a b = false <-> a <= b.
Proof. apply Qltb_ge. Qed.

Lemma Qgeb_ge (a b : Q) : Qgeb a b = true <-> b <= a.
Proof. apply Qleb_le. Qed.

Lemma Qgeb_lt (a b : Q) : Qgeb a b = false <-> a < b.
Proof. apply Qleb_gt. Qed.

(** Turns every boolean comparison of the context and goal into its
    proposition. *)
Ltac cmp_prop :=
  repeat match goal with
  | H : Qleb _ _ = true |- _ => apply Qleb_le in H
  | H : Qleb _ _ = false |- _ => apply Qleb_gt in H
  | H : Qltb _ _ = true |- _ => apply Qltb_lt in H
  | H : Qltb _ _ = false |- _ => apply Qltb_ge in H
  | H : Qgtb _ _ = true |- _ => apply Qgtb_gt in H
  | H : Qgtb _ _ = false |- _ => apply Qgtb_le in H
  | H : Qgeb _ _ = true |- _ => apply Qgeb_ge in H
  | H : Qgeb _ _ = false |- _ => apply Qgeb_lt in H
  end.

(** ** The three branches of [computeProgress] *)

Section ProgressBranches.

Variable divide : Q -> Q -> Q.
Variables (el : Layout) (st en : Q).

Lemma progress_before :
  0 < distA el st -> computeProgress_by divide el st en = 0.
Proof.
  intro H. unfold computeProgress_by. cbv zeta.
  fold (distA el st).
  apply Qgtb_gt in H. rewrite H. reflexivity.
Qed.

Lemma progress_after :
  distA el st <= 0 -> distB el en <= 0 ->
  computeProgress_by divide el st en = 1.
Proof.
  intros HA HB. unfold computeProgress_by. cbv zeta.
  fold (distA el st). fold (distB el en).
  apply Qgtb_le in HA. apply Qleb_le in HB. rewrite HA, HB. reflexivity.
Qed.

Lemma progress_inside :
  distA el st <= 0 -> 0 < distB el en ->
  computeProgress_by divide el st en =
  divide (- distA el st) (distB el en - distA el st).
Proof.
  intros HA HB. unfold computeProgress_by. cbv zeta.
  fold (distA el st). fold (distB el en).
  apply Qgtb_le in HA. apply Qleb_gt in HB. rewrite HA, HB. reflexivity.
Qed.

(** Every call takes one of the three branches. *)
Lemma progress_cases :
  (0 < distA el st /\ computeProgress_by divide el st en = 0) \/
  (distA el st <= 0 /\ distB el en <= 0 /\
   computeProgress_by divide el st en = 1) \/
  (distA el st <= 0 /\ 0 < distB el en /\
   computeProgress_by divide el st en =
   divide (- distA el st) (distB el en - distA el st)).
Proof.
  destruct (Qlt_le_dec 0 (distA el st)) as [HA|HA].
  - left. split; [exact HA | apply progress_before; exact HA].
  - right. destruct (Qlt_le_dec 0 (distB el en)) as [HB|HB].
    + right. repeat split; try assumption. apply progress_inside; assumption.
    + left. repeat split; try assumption. apply progress_after; assumption.
Qed.

End ProgressBranches.




(** ** Claims on [computeProgress] *)



(** The division is only ever evaluated on a positive divisor: two
    operators that agree there give the same progress everywhere. *)
Lemma computeProgress_by_positive_divisor (d1 d2 : Q -> Q -> Q) :
  (forall a b, 0 < b -> d1 a b = d2 a b) ->
  forall el st en,
    computeProgress_by d1 el st en = computeProgress_by d2 el st en.
Proof.
  intros Hagree el st en.
  destruct (progress_cases d1 el st en)
    as [[HA E] | [(HA & HB & E) | (HA & HB & E)]]; rewrite E.
  - symmetry. apply progress_before, HA.
  - symmetry. apply progress_after; assumption.
  - rewrite (progress_inside d2 el st en HA HB). apply Hagree. lra.
Qed.

(** ** What [update] does to the element *)

Lemma valuesOf_app (a b : list effect) :
  valuesOf (a ++ b) = valuesOf a ++ valuesOf b.
Proof. apply flat_map_app. Qed.

Lemma eventsOf_app (a b : list effect) :
  eventsOf (a ++ b) = eventsOf a ++ eventsOf b.
Proof. apply flat_map_app. Qed.

Lemma valuesOf_SetProperty (f : Spec -> Q) (l : list Spec) :
  valuesOf (map (fun s => SetProperty (name s) (f s)) l)
  = map (fun s => (name s, f s)) l.
Proof.
  induction l as [|s l IH]; simpl; [reflexivity | now rewrite <- IH].
Qed.

Lemma eventsOf_SetProperty (f : Spec -> Q) (l : list Spec) :
  eventsOf (map (fun s => SetProperty (name s) (f s)) l) = [].
Proof.
  induction l as [|s l IH]; simpl; [reflexivity | exact IH].
Qed.

Lemma valuesOf_when_dispatch (b : bool) (type : string) (v : Q) :
  valuesOf (when b (DispatchEvent type v)) = [].
Proof. destruct b; reflexivity. Qed.

Lemma valuesOf_updateClasses (this : Instance) (v : Q) (initial : bool) :
  valuesOf (snd (updateClasses this v initial)) = [].
Proof.
  unfold updateClasses. cbn [snd]. rewrite valuesOf_app. simpl.
  destruct initial; [reflexivity|].
  rewrite !valuesOf_app, !valuesOf_when_dispatch. reflexivity.
Qed.

Lemma update_fst (this : Instance) (el : Layout) :
  fst (update this el)
  = fst (updateClasses (setT this (progressOf this el)) (progressOf this el) false).
Proof. reflexivity. Qed.

Lemma update_snd (this : Instance) (el : Layout) :
  snd (update this el)
  = map (fun s => SetProperty (name s)
                    (appliedValue this (progressOf this el) s)) (specs this)
    ++ snd (updateClasses (setT this (progressOf this el))
              (progressOf this el) false).
Proof. reflexivity. Qed.

Lemma update_values (this : Instance) (el : Layout) :
  valuesOf (snd (update this el))
  = map (fun s => (name s, appliedValue this (progressOf this el) s))
      (specs this).
Proof.
  rewrite update_snd, valuesOf_app, valuesOf_updateClasses, app_nil_r.
  apply valuesOf_SetProperty.
Qed.

Lemma update_events (this : Instance) (el : Layout) :
  eventsOf (snd (update this el))
  = eventsOf (snd (updateClasses (setT this (progressOf this el))
                     (progressOf this el) false)).
Proof.
  rewrite update_snd, eventsOf_app, eventsOf_SetProperty. reflexivity.
Qed.


(** ** What [update] and the constructor leave unchanged *)

Lemma update_keeps (this : Instance) (el : Layout) :
  opts (fst (update this el)) = opts this /\
  specs (fst (update this el)) = specs this /\
  start (fst (update this el)) = start this /\
  end_ (fst (update this el)) = end_ this /\
  origin (fst (update this el)) = origin this.
Proof. repeat split. Qed.

Lemma run_cons_fst (this : Instance) (el : Layout) (els : list Layout) :
  fst (run this (el :: els)) = fst (run (fst (update this el)) els).
Proof.
  cbn [run]. destruct (update this el) as [this1 fx]. cbn [fst].
  destruct (run this1 els) as [this2 fx']. reflexivity.
Qed.

Lemma run_keeps (els : list Layout) :
  forall this,
    opts (fst (run this els)) = opts this /\
    specs (fst (run this els)) = specs this.
Proof.
  induction els as [|el els IH]; intro this.
  - split; reflexivity.
  - rewrite run_cons_fst.
    destruct (IH (fst (update this el))) as [IH1 IH2].
    destruct (update_keeps this el) as (K1 & K2 & _).
    rewrite IH1, IH2. split; assumption.
Qed.

Lemma newInstance_fields (e : Element) (o : Options) :
  opts (fst (newInstance e o)) = o /\
  specs (fst (newInstance e o))
  = map clampInit (parseSpec (getAttribute e (specAttr o))).
Proof. split; reflexivity. Qed.

(** The constructor leaves [init] between the bounds when they are in order. *)
Lemma clampInit_bounds (s : Spec) :
  min s <= max s ->
  min (clampInit s) <= init (clampInit s) /\
  init (clampInit s) <= max (clampInit s).
Proof.
  intro H. unfold clampInit. simpl.
  destruct (Qltb (init s) (min s)) eqn:E1;
    [ destruct (Qgtb (min s) (max s)) eqn:E2
    | destruct (Qgtb (init s) (max s)) eqn:E2 ];
    cmp_prop; split; lra.
Qed.


(** ** The clamp of [update] *)


Lemma reclamp_reversed (v lo hi : Q) :
  hi < lo -> Math_max (Math_min v hi) lo = lo.
Proof.
  intro H. unfold Math_min, Math_max.
  destruct (Qltb hi v) eqn:E1.
  - apply Qltb_lt in H. rewrite H. reflexivity.
  - cmp_prop. assert (H' : v < lo) by lra.
    apply Qltb_lt in H'. rewrite H'. reflexivity.
Qed.

Lemma appliedValue_reversed (this : Instance) (v : Q) (s : Spec) :
  max s < min s -> appliedValue this v s = min s.
Proof.
  intro H. unfold appliedValue. cbv zeta. apply reclamp_reversed, H.
Qed.



(** ** Claims on the values that [update] applies *)




(** ** Claims on the flags and the notifications *)


(** A scroll down and back up: progress 0, 0.001, 0.5, 0.999, 1, 0.5, 0
    with the default threshold. *)
Example scroll_trace :
  map (progressOf (fst (newInstance plainElement DEFAULTS)))
    [tall 0; tall (-1); tall (-500); tall (-999); tall (-1000);
     tall (-500); tall 0]
  = [0 # 1000; 1 # 1000; 500 # 1000; 999 # 1000; 1; 500 # 1000; 0 # 1000] /\
  map fst
    (eventsOf
       (snd (run (fst (newInstance plainElement DEFAULTS))
               [tall 0; tall (-1); tall (-500); tall (-999); tall (-1000);
                tall (-500); tall 0])))
  = ["sv:start"; "sv:enter"; "sv:leave"; "sv:end"; "sv:enter"; "sv:leave"].
Proof. split; vm_compute; reflexivity. Qed.

(** ** The spec mini-language *)

Lemma split_nonempty (sep : ascii) (s : string) : split sep s <> [].
Proof.
  destruct s as [|c r]; simpl; [discriminate|].
  destruct (Ascii.eqb c sep); [discriminate|].
  destruct (split sep r); discriminate.
Qed.

(** Splitting at a separator splits each side on its own. *)
Lemma split_app (sep : ascii) (a b : string) :
  split sep (a ++ String sep b)%string = split sep a ++ split sep b.
Proof.
  induction a as [|c a IH]; simpl.
  - rewrite Ascii.eqb_refl. reflexivity.
  - destruct (Ascii.eqb c sep).
    + rewrite IH. reflexivity.
    + rewrite IH. pose proof (split_nonempty sep a) as Hne.
      destruct (split sep a) as [|h tl]; [congruence | reflexivity].
Qed.

Lemma parts_app (a b : string) :
  parts (a ++ ";" ++ b)%string = parts a ++ parts b.
Proof.
  unfold parts. change (";" ++ b)%string with (String ";"%char b).
  rewrite split_app, map_app, filter_app. reflexivity.
Qed.

Lemma parseSpec_Some (raw : string) :
  parseSpec (Some raw) = flat_map parsePart (parts raw).
Proof. destruct raw; reflexivity. Qed.

Lemma parseSpec_app (a b : string) :
  parseSpec (Some (a ++ ";" ++ b)%string)
  = parseSpec (Some a) ++ parseSpec (Some b).
Proof.
  rewrite !parseSpec_Some, parts_app. apply flat_map_app.
Qed.

(** [parsePart] in terms of the two matches and the three numbers. *)
Lemma parsePart_matched (part nm m2 : string) (m3 : option string)
    (n1 n2 : string) :
  matchEntry part = Some (nm, m2, m3) ->
  matchRange (trim m2) = Some (n1, n2) ->
  parsePart part
  = match Number n1, Number n2, initNumber n1 m3 with
    | Fin mn, Fin mx, Fin i => [mkSpec nm mn mx i]
    | _, _, _ => []
    end.
Proof.
  intros H1 H2. unfold parsePart. rewrite H1. cbv zeta. rewrite H2.
  destruct m3; reflexivity.
Qed.

Lemma parsePart_no_entry (part : string) :
  matchEntry part = None -> parsePart part = [].
Proof. intro H. unfold parsePart. rewrite H. reflexivity. Qed.

Lemma parsePart_no_range (part nm m2 : string) (m3 : option string) :
  matchEntry part = Some (nm, m2, m3) ->
  matchRange (trim m2) = None ->
  parsePart part = [].
Proof.
  intros H1 H2. unfold parsePart. rewrite H1. cbv zeta. rewrite H2.
  reflexivity.
Qed.

Lemma parsePart_not_finite (part nm m2 : string) (m3 : option string)
    (n1 n2 : string) :
  matchEntry part = Some (nm, m2, m3) ->
  matchRange (trim m2) = Some (n1, n2) ->
  isFinite (Number n1) && isFinite (Number n2)
  && isFinite (initNumber n1 m3) = false ->
  parsePart part = [].
Proof.
  intros H1 H2 H. rewrite (parsePart_matched _ _ _ _ _ _ H1 H2).
  destruct (Number n1), (Number n2), (initNumber n1 m3);
    try reflexivity; discriminate.
Qed.

(** Every entry pushed comes from a part that matches both patterns and
    whose three numbers are finite. *)
Lemma parsePart_inv (part : string) (s : Spec) :
  In s (parsePart part) ->
  parsePart part = [s] /\
  exists m2 m3 n1 n2,
    matchEntry part = Some (name s, m2, m3) /\
    matchRange (trim m2) = Some (n1, n2) /\
    Number n1 = Fin (min s) /\
    Number n2 = Fin (max s) /\
    initNumber n1 m3 = Fin (init s).
Proof.
  intro H.
  destruct (matchEntry part) as [[[nm m2] m3]|] eqn:E1;
    [|rewrite parsePart_no_entry in H by assumption; destruct H].
  destruct (matchRange (trim m2)) as [[n1 n2]|] eqn:E2;
    [|rewrite (parsePart_no_range _ _ _ _ E1 E2) in H; destruct H].
  rewrite (parsePart_matched _ _ _ _ _ _ E1 E2) in *.
  destruct (Number n1) as [mn| |] eqn:N1; [|destruct H|destruct H].
  destruct (Number n2) as [mx| |] eqn:N2; [|destruct H|destruct H].
  destruct (initNumber n1 m3) as [i| |] eqn:N3; [|destruct H|destruct H].
  destruct H as [<-|[]]. split; [reflexivity|].
  exists m2, m3, n1, n2. simpl. repeat split; assumption.
Qed.

Lemma parsePart_length (part : string) : (List.length (parsePart part) <= 1)%nat.
Proof.
  destruct (parsePart part) as [|s l] eqn:E; [simpl; lia|].
  destruct (parsePart_inv part s) as [E' _]; [rewrite E; left; reflexivity|].
  rewrite E in E'. injection E' as ->. simpl. lia.
Qed.

(** *** Where an [@] can be *)

Lemma hasChar_span_snd (x : ascii) (p : ascii -> bool) (s : string) :
  hasChar x (snd (span p s)) = true -> hasChar x s = true.
Proof.
  induction s as [|c r IH]; simpl; [trivial|].
  destruct (p c).
  - destruct (span p r) as [a b]. simpl in *. intro H.
    rewrite (IH H). apply orb_true_r.
  - trivial.
Qed.

Lemma hasChar_trimStart (x : ascii) (s : string) :
  hasChar x (trimStart s) = true -> hasChar x s = true.
Proof.
  induction s as [|c r IH]; simpl; [trivial|].
  destruct (isSpace c); [|trivial].
  intro H. rewrite (IH H). apply orb_true_r.
Qed.

Lemma hasChar_trimEnd (x : ascii) (s : string) :
  hasChar x (trimEnd s) = true -> hasChar x s = true.
Proof.
  induction s as [|c r IH]; simpl; [trivial|].
  destruct (isSpace c && isEmpty (trimEnd r)); simpl; [discriminate|].
  intro H. apply orb_true_iff in H. destruct H as [H|H].
  - rewrite H. reflexivity.
  - rewrite (IH H). apply orb_true_r.
Qed.

Lemma hasChar_trim (x : ascii) (s : string) :
  hasChar x (trim s) = true -> hasChar x s = true.
Proof.
  intro H. apply hasChar_trimStart, hasChar_trimEnd, H.
Qed.

Lemma hasChar_split (x sep : ascii) (s p : string) :
  In p (split sep s) -> hasChar x p = true -> hasChar x s = true.
Proof.
  revert p. induction s as [|c r IH]; intros p Hin Hp; simpl in Hin.
  - destruct Hin as [<-|[]]. discriminate.
  - simpl. destruct (Ascii.eqb c sep).
    + destruct Hin as [<-|Hin]; [discriminate|].
      rewrite (IH p Hin Hp). apply orb_true_r.
    + pose proof (split_nonempty sep r) as Hne.
      destruct (split sep r) as [|h tl]; [congruence|].
      destruct Hin as [<-|Hin].
      * simpl in Hp. apply orb_true_iff in Hp. destruct Hp as [Hp|Hp].
        -- rewrite Hp. reflexivity.
        -- rewrite (IH h (or_introl eq_refl) Hp). apply orb_true_r.
      * rewrite (IH p (or_intror Hin) Hp). apply orb_true_r.
Qed.

Lemma hasChar_parts (x : ascii) (raw p : string) :
  In p (parts raw) -> hasChar x p = true -> hasChar x raw = true.
Proof.
  unfold parts. intros Hin Hp.
  apply filter_In in Hin. destruct Hin as [Hin _].
  apply in_map_iff in Hin. destruct Hin as (q & <- & Hq).
  apply (hasChar_split x ";"%char raw q Hq), hasChar_trim, Hp.
Qed.

Lemma breakAt_Some (x : ascii) (s pre post : string) :
  breakAt x s = (pre, Some post) -> hasChar x s = true.
Proof.
  revert pre. induction s as [|c r IH]; intros pre H; simpl in *.
  - discriminate.
  - destruct (Ascii.eqb c x); [reflexivity|].
    destruct (breakAt x r) as [a [b|]] eqn:E; [|discriminate].
    injection H as _ Hb. subst post.
    rewrite (IH a eq_refl). reflexivity.
Qed.

(** Group 3 of the first pattern is only there when the part has an [@]. *)
Lemma matchEntry_group3 (part nm m2 r : string) :
  matchEntry part = Some (nm, m2, Some r) -> hasChar "@"%char part = true.
Proof.
  unfold matchEntry. destruct part as [|c0 p0]; [discriminate|].
  destruct (isIdentStart c0); [|discriminate].
  destruct (span isIdentChar (String c0 p0)) as [nm' r1] eqn:Es.
  destruct (trimStart r1) as [|c1 r2] eqn:Et; [discriminate|].
  intro H.
  assert (Hr2 : hasChar "@"%char r2 = true).
  { destruct c1 as [[] [] [] [] [] [] [] []]; try discriminate.
    destruct (breakAt "@"%char r2) as [pre [post|]] eqn:Eb.
    - apply (breakAt_Some _ _ _ _ Eb).
    - destruct (isEmpty pre); discriminate. }
  apply (hasChar_span_snd _ isIdentChar). rewrite Es. simpl.
  apply hasChar_trimStart. rewrite Et. simpl. rewrite Hr2. apply orb_true_r.
Qed.

(** Without an [@] in the declaration, every entry has [init = min]. *)
Lemma parseSpec_init_default (raw : string) (s : Spec) :
  hasChar "@"%char raw = false ->
  In s (parseSpec (Some raw)) ->
  init s = min s.
Proof.
  intros Hno Hin. rewrite parseSpec_Some in Hin.
  apply in_flat_map in Hin. destruct Hin as (part & Hpart & Hs).
  destruct (parsePart_inv part s Hs)
    as (_ & m2 & m3 & n1 & n2 & E1 & _ & N1 & _ & N3).
  destruct m3 as [r|].
  - apply matchEntry_group3 in E1.
    rewrite (hasChar_parts _ raw part Hpart E1) in Hno. discriminate.
  - simpl in N3. rewrite N1 in N3. injection N3 as ->. reflexivity.
Qed.

(** C8.  [parseSpec] treats the parts of a declaration one by one: a
    part that fails either pattern, or one of whose numbers is not
    finite, adds nothing and leaves the entries of the other parts as
    they are; an entry without [@init] has [init = min]; and the
    declaration "--x=-5..5@0;--scale=0..1" gives the two entries of the
    specification. *)
Theorem parseSpec_partial_success :
  (forall a b : string,
     parseSpec (Some (a ++ ";" ++ b)%string)
     = parseSpec (Some a) ++ parseSpec (Some b)) /\
  (forall raw : string,
     parseSpec (Some raw) = flat_map parsePart (parts raw)) /\
  (forall part : string,
     (List.length (parsePart part) <= 1)%nat /\
     (matchEntry part = None -> parsePart part = []) /\
     (forall nm m2 m3,
        matchEntry part = Some (nm, m2, m3) ->
        matchRange (trim m2) = None -> parsePart part = []) /\
     (forall nm m2 m3 n1 n2,
        matchEntry part = Some (nm, m2, m3) ->
        matchRange (trim m2) = Some (n1, n2) ->
        isFinite (Number n1) && isFinite (Number n2)
        && isFinite (initNumber n1 m3) = false ->
        parsePart part = [])) /\
  (forall (raw : string) (s : Spec),
     hasChar "@"%char raw = false ->
     In s (parseSpec (Some raw)) -> init s = min s) /\
  parseSpec (Some "--bad=notanumber..5") = [] /\
  parseSpec (Some "--bad=notanumber..5;--scale=0..1")
  = [mkSpec "--scale" 0 1 0] /\
  parseSpec (Some "--a=0..1@Infinity;--b=0..1@abc;--c=0..1@1e309;--d=0..1@1e3")
  = [mkSpec "--d" 0 1 1000] /\
  parseSpec (Some ("--a=1" ++ zeros 309 ++ "..5;--b=0..-1" ++ zeros 309
                   ++ ";--c=0..1")%string)
  = [mkSpec "--c" 0 1 0] /\
  parseSpec (Some "--x=-5..5@0;--scale=0..1")
  = [mkSpec "--x" (-5) 5 0; mkSpec "--scale" 0 1 0].
Proof.
  split; [exact parseSpec_app|].
  split; [exact parseSpec_Some|].
  split.
  { intro part. split; [apply parsePart_length|].
    split; [apply parsePart_no_entry|].
    split; [apply parsePart_no_range | apply parsePart_not_finite]. }
  split; [exact parseSpec_init_default|].
  repeat split; vm_compute; reflexivity.
Qed.

Lemma parseSpec_partial_success_witness :
  parseSpec (Some "--bad=notanumber..5;--scale=0..1")
  = parseSpec (Some "--bad=notanumber..5") ++ parseSpec (Some "--scale=0..1") /\
  parsePart "--bad=notanumber..5" = [] /\
  parsePart "--a=0..1@Infinity" = [] /\
  init (mkSpec "--scale" 0 1 0) = min (mkSpec "--scale" 0 1 0).
Proof.
  destruct parseSpec_partial_success as (Happ & _ & Hpart & Hinit & _).
  split; [exact (Happ "--bad=notanumber..5" "--scale=0..1")|].
  split.
  { destruct (Hpart "--bad=notanumber..5") as (_ & _ & Hrange & _).
    apply (Hrange "--bad" "notanumber..5" None); reflexivity. }
  split.
  { destruct (Hpart "--a=0..1@Infinity") as (_ & _ & _ & Hfin).
    apply (Hfin "--a" "0..1" (Some "Infinity") "0" "1"); reflexivity. }
  apply (Hinit "--x=1..2;--scale=0..1").
  - reflexivity.
  - vm_compute. right. left. reflexivity.
Defined.

(** * Further properties *)

(** ** More on [computeProgress] *)

(** The progress only depends on the two signed distances. *)
Lemma computeProgress_dist_ext (el el' : Layout) (st en st' en' : Q) :
  distA el st == distA el' st' ->
  distB el en == distB el' en' ->
  computeProgress el st en == computeProgress el' st' en'.
Proof.
  intros EA EB. unfold computeProgress.
  destruct (progress_cases Qdiv el st en)
    as [[HA E] | [(HA & HB & E) | (HA & HB & E)]];
  destruct (progress_cases Qdiv el' st' en')
    as [[HA' E'] | [(HA' & HB' & E') | (HA' & HB' & E')]];
  rewrite E, E'; try reflexivity; try lra.
  rewrite EA, EB. reflexivity.
Qed.

(** X4.  In a viewport of height zero the start and end fractions play
    no part: the progress is the same for all of them. *)
Theorem computeProgress_zero_viewport
    (el : Layout) (st en st' en' : Q) :
  viewportHeight el == 0 ->
  computeProgress el st en == computeProgress el st' en'.
Proof.
  intro Hv. apply computeProgress_dist_ext.
  - unfold distA. rewrite Hv. ring.
  - unfold distB. rewrite Hv. ring.
Qed.

Lemma computeProgress_zero_viewport_witness :
  computeProgress (mkLayout (-10) 20 0 0) 0 1
  == computeProgress (mkLayout (-10) 20 0 0) (1 # 2) (1 # 4).
Proof.
  apply (computeProgress_zero_viewport (mkLayout (-10) 20 0 0)).
  reflexivity.
Defined.

(** ** More on the values that [update] applies *)

(** The specs of an instance, at any time, are those that the
    constructor made from the element's declaration. *)
Lemma reachable_specs (e : Element) (o : Options) (els : list Layout) :
  opts (fst (run (fst (newInstance e o)) els)) = o /\
  specs (fst (run (fst (newInstance e o)) els))
  = map clampInit (parseSpec (getAttribute e (specAttr o))).
Proof.
  destruct (run_keeps els (fst (newInstance e o))) as [Ko Ks].
  destruct (newInstance_fields e o) as [No Ns].
  split; congruence.
Qed.

Lemma clampInit_reversed (s : Spec) :
  max s < min s -> init (clampInit s) = max s.
Proof.
  intro H. unfold clampInit. simpl.
  destruct (Qltb (init s) (min s)) eqn:E1.
  - apply Qgtb_gt in H. rewrite H. reflexivity.
  - cmp_prop. assert (H' : max s < init s) by lra.
    apply Qgtb_gt in H'. rewrite H'. reflexivity.
Qed.

(** X10.  At any time, a spec of an instance with [min <= max] has its
    [init] within [[min, max]], and a spec with [min > max] has
    [init = max]: the constructor sets it so and no update changes it. *)
Theorem init_within_bounds
    (e : Element) (o : Options) (els : list Layout) (s : Spec) :
  In s (specs (fst (run (fst (newInstance e o)) els))) ->
  (min s <= max s -> min s <= init s /\ init s <= max s) /\
  (max s < min s -> init s = max s).
Proof.
  intro Hin. destruct (reachable_specs e o els) as [_ Es].
  rewrite Es in Hin. apply in_map_iff in Hin. destruct Hin as (s0 & <- & _).
  split; intro H.
  - exact (clampInit_bounds s0 H).
  - exact (clampInit_reversed s0 H).
Qed.

Lemma init_within_bounds_witness :
  (max (mkSpec "--x" 5 0 0) < min (mkSpec "--x" 5 0 0) /\
   init (mkSpec "--x" 5 0 0) = max (mkSpec "--x" 5 0 0)) /\
  (min (mkSpec "--scale" 0 1 0) <= max (mkSpec "--scale" 0 1 0) /\
   min (mkSpec "--scale" 0 1 0) <= init (mkSpec "--scale" 0 1 0) /\
   init (mkSpec "--scale" 0 1 0) <= max (mkSpec "--scale" 0 1 0)).
Proof.
  assert (H1 : max (mkSpec "--x" 5 0 0) < min (mkSpec "--x" 5 0 0))
    by reflexivity.
  assert (H2 : min (mkSpec "--scale" 0 1 0) <= max (mkSpec "--scale" 0 1 0))
    by (vm_compute; discriminate).
  split; split; try assumption.
  - apply (init_within_bounds reversedElement DEFAULTS [layoutHalfWay]
             (mkSpec "--x" 5 0 0)); [|exact H1].
    vm_compute. left. reflexivity.
  - apply (init_within_bounds plainElement DEFAULTS [layoutHalfWay]
             (mkSpec "--scale" 0 1 0)); [|exact H2].
    vm_compute. right. left. reflexivity.
Defined.

Lemma newInstance_values (e : Element) (o : Options) :
  valuesOf (snd (newInstance e o))
  = map (fun s => (name s, init s)) (specs (fst (newInstance e o))).
Proof.
  unfold newInstance. cbn -[parseSpec clampInit Qgtb Qgeb Qltb Qminus].
  rewrite valuesOf_app, valuesOf_SetProperty. simpl. apply app_nil_r.
Qed.

(** X9.  The constructor and every later [update] set exactly the
    properties that the element declares, once each and in the order of
    the declaration. *)
Theorem update_sets_declared_properties
    (e : Element) (o : Options) (els : list Layout) (el : Layout) :
  map fst (valuesOf (snd (newInstance e o)))
  = map name (parseSpec (getAttribute e (specAttr o))) /\
  map fst (valuesOf (snd (update (fst (run (fst (newInstance e o)) els)) el)))
  = map name (parseSpec (getAttribute e (specAttr o))).
Proof.
  destruct (reachable_specs e o els) as [_ Es].
  destruct (newInstance_fields e o) as [_ Ns].
  split.
  - rewrite newInstance_values, Ns, !map_map. reflexivity.
  - rewrite update_values, Es, !map_map. reflexivity.
Qed.



(** ** More on the flags and the notifications *)

Lemma eventsOf_when (b : bool) (type : string) (v : Q) :
  eventsOf (when b (DispatchEvent type v)) = notify b type v.
Proof. destruct b; reflexivity. Qed.

(** The notifications of one update, from the flags before and the
    three comparisons of the new progress. *)
Lemma update_events_explicit (this : Instance) (el : Layout) :
  eventsOf (snd (update this el))
  = notify (negb (started this) && started (fst (update this el)))
      "sv:start" (progressOf this el)
    ++ notify (negb (active this) && active (fst (update this el)))
         "sv:enter" (progressOf this el)
    ++ notify (active this && negb (active (fst (update this el))))
         "sv:leave" (progressOf this el)
    ++ notify (negb (ended this) && ended (fst (update this el)))
         "sv:end" (progressOf this el).
Proof.
  rewrite update_events, update_fst. unfold updateClasses.
  cbn -[Qgtb Qgeb Qltb Qminus when].
  rewrite !eventsOf_app, !eventsOf_when. reflexivity.
Qed.

Lemma update_flags (this : Instance) (el : Layout) :
  started (fst (update this el))
  = Qgtb (progressOf this el) (threshold (opts this)) /\
  ended (fst (update this el))
  = Qgeb (progressOf this el) (1 - threshold (opts this)) /\
  active (fst (update this el))
  = Qgtb (progressOf this el) (threshold (opts this))
    && Qltb (progressOf this el) (1 - threshold (opts this)).
Proof. repeat split. Qed.

Lemma progressOf_after_update (this : Instance) (el el' : Layout) :
  progressOf (fst (update this el)) el' = progressOf this el'.
Proof. reflexivity. Qed.

(** X12.  A second update on the same layout notifies nothing, sets the
    same values and leaves the instance as it is. *)
Theorem update_twice (this : Instance) (el : Layout) :
  eventsOf (snd (update (fst (update this el)) el)) = [] /\
  valuesOf (snd (update (fst (update this el)) el))
  = valuesOf (snd (update this el)) /\
  fst (update (fst (update this el)) el) = fst (update this el).
Proof.
  split; [|split].
  - rewrite update_events_explicit.
    destruct (update_flags (fst (update this el)) el) as (Es & Ee & Ea).
    rewrite progressOf_after_update in *.
    destruct (update_flags this el) as (Es' & Ee' & Ea').
    change (opts (fst (update this el))) with (opts this) in *.
    rewrite Es, Ee, Ea, Es', Ee', Ea'.
    destruct (Qgtb (progressOf this el) (threshold (opts this))),
      (Qgeb (progressOf this el) (1 - threshold (opts this))),
      (Qltb (progressOf this el) (1 - threshold (opts this)));
      reflexivity.
  - rewrite !update_values. reflexivity.
  - rewrite (update_fst (fst (update this el)) el).
    rewrite progressOf_after_update. reflexivity.
Qed.

Lemma run_cons_snd (this : Instance) (el : Layout) (els : list Layout) :
  snd (run this (el :: els))
  = snd (update this el) ++ snd (run (fst (update this el)) els).
Proof.
  cbn [run]. destruct (update this el) as [this1 fx]. cbn [fst snd].
  destruct (run this1 els) as [this2 fx']. reflexivity.
Qed.

Lemma countType_app (type : string) (a b : list (string * Q)) :
  countType type (a ++ b) = (countType type a + countType type b)%nat.
Proof.
  unfold countType. rewrite filter_app. apply length_app.
Qed.

Lemma update_enter_leave (this : Instance) (el : Layout) :
  (countType "sv:enter" (eventsOf (snd (update this el)))
   + b2n (active this)
   = countType "sv:leave" (eventsOf (snd (update this el)))
     + b2n (active (fst (update this el))))%nat.
Proof.
  rewrite update_events_explicit.
  destruct (started this), (active this), (ended this),
    (started (fst (update this el))), (active (fst (update this el))),
    (ended (fst (update this el))); reflexivity.
Qed.

(** X13.  Over any sequence of updates, [sv:enter] and [sv:leave]
    balance: the number of enters plus the [active] flag before equals
    the number of leaves plus the [active] flag after. *)
Theorem enter_leave_balance (els : list Layout) (this : Instance) :
  (countType "sv:enter" (eventsOf (snd (run this els))) + b2n (active this)
   = countType "sv:leave" (eventsOf (snd (run this els)))
     + b2n (active (fst (run this els))))%nat.
Proof.
  revert this. induction els as [|el els IH]; intro this.
  - reflexivity.
  - rewrite run_cons_fst, run_cons_snd, eventsOf_app, !countType_app.
    pose proof (update_enter_leave this el) as H1.
    pose proof (IH (fst (update this el))) as H2.
    lia.
Qed.

(** With a threshold below one half, an instance that has not started
    is neither active nor ended. *)
Lemma not_started_flags (this : Instance) (el : Layout) :
  threshold (opts this) < 1 # 2 ->
  started (fst (update this el)) = false ->
  active (fst (update this el)) = false /\
  ended (fst (update this el)) = false.
Proof.
  intros Hthr Hs. destruct (update_flags this el) as (Es & Ee & Ea).
  rewrite Ea, Ee. rewrite Es in Hs. rewrite Hs. split; [reflexivity|].
  apply Qgtb_le in Hs. apply Qgeb_lt. lra.
Qed.

Lemma run_first_event (els : list Layout) :
  forall this : Instance,
    threshold (opts this) < 1 # 2 ->
    started this = false -> active this = false -> ended this = false ->
    eventsOf (snd (run this els)) = [] \/
    exists (v : Q) (rest : list (string * Q)),
      eventsOf (snd (run this els)) = ("sv:start", v) :: rest.
Proof.
  induction els as [|el els IH]; intros this Hthr Hs Ha He.
  - left. reflexivity.
  - rewrite run_cons_snd, eventsOf_app, update_events_explicit.
    rewrite Hs, Ha, He. cbn [negb andb notify app].
    destruct (started (fst (update this el))) eqn:Es.
    + right. eexists. eexists. reflexivity.
    + destruct (not_started_flags this el Hthr Es) as [Ea' Ee'].
      rewrite Ea', Ee'. cbn [notify app].
      apply IH; assumption.
Qed.

(** X14.  With a threshold in [[0, 1/2)], the first notification that
    an instance ever sends is [sv:start]. *)
Theorem first_notification_is_start
    (e : Element) (o : Options) (els : list Layout) :
  0 <= threshold o -> threshold o < 1 # 2 ->
  eventsOf (snd (run (fst (newInstance e o)) els)) = [] \/
  exists (v : Q) (rest : list (string * Q)),
    eventsOf (snd (run (fst (newInstance e o)) els))
    = ("sv:start", v) :: rest.
Proof.
  intros H0 H1. apply run_first_event.
  - exact H1.
  - change (Qgtb 0 (threshold o) = false). apply Qgtb_le, H0.
  - change (Qgtb 0 (threshold o) && Qltb 0 (1 - threshold o) = false).
    apply Qgtb_le in H0. rewrite H0. reflexivity.
  - change (Qgeb 0 (1 - threshold o) = false). apply Qgeb_lt. lra.
Qed.

Lemma first_notification_is_start_witness :
  eventsOf (snd (run (fst (newInstance plainElement DEFAULTS))
                   [layoutBefore; layoutAfter])) = [] \/
  exists (v : Q) (rest : list (string * Q)),
    eventsOf (snd (run (fst (newInstance plainElement DEFAULTS))
                     [layoutBefore; layoutAfter]))
    = ("sv:start", v) :: rest.
Proof.
  apply (first_notification_is_start plainElement DEFAULTS
           [layoutBefore; layoutAfter]).
  - vm_compute. discriminate.
  - vm_compute. reflexivity.
Defined.

(** ** More on the spec mini-language and [toNum] *)

Lemma allChars_span_fst (p : ascii -> bool) (s : string) :
  allChars p (fst (span p s)) = true.
Proof.
  induction s as [|c r IH]; simpl; [reflexivity|].
  destruct (p c) eqn:E; [|reflexivity].
  destruct (span p r) as [a b]. simpl in *. rewrite E, IH. reflexivity.
Qed.

Lemma isIdentStart_isIdentChar (c : ascii) :
  isIdentStart c = true -> isIdentChar c = true.
Proof.
  unfold isIdentStart, isIdentChar. intro H.
  repeat (apply orb_true_iff in H; destruct H as [H|H]);
    rewrite H; repeat rewrite orb_true_r; reflexivity.
Qed.

Lemma matchEntry_name (part nm m2 : string) (m3 : option string) :
  matchEntry part = Some (nm, m2, m3) -> isIdentifier nm = true.
Proof.
  unfold matchEntry. destruct part as [|c0 p0]; [discriminate|].
  destruct (isIdentStart c0) eqn:E0; [|discriminate].
  pose proof (allChars_span_fst isIdentChar p0) as Hall.
  cbn [span]. rewrite (isIdentStart_isIdentChar c0 E0).
  destruct (span isIdentChar p0) as [a b]. cbn [fst] in Hall.
  destruct (trimStart b) as [|c1 r2]; [discriminate|].
  destruct c1 as [[] [] [] [] [] [] [] []]; try discriminate.
  destruct (breakAt "@"%char r2) as [pre post].
  destruct (isEmpty pre); [discriminate|].
  destruct post as [p|].
  - destruct (isEmpty p || _); [discriminate|].
    intro H. injection H as <- _ _. simpl. rewrite E0, Hall. reflexivity.
  - intro H. injection H as <- _ _. simpl. rewrite E0, Hall. reflexivity.
Qed.

(** X15.  Every entry of [parseSpec] has a name made of a letter, [_]
    or [-] followed by letters, digits, [_] and [-] only. *)
Theorem parseSpec_names_are_identifiers (raw : option string) (s : Spec) :
  In s (parseSpec raw) -> isIdentifier (name s) = true.
Proof.
  destruct raw as [r|]; [|intros []].
  rewrite parseSpec_Some. intro Hin.
  apply in_flat_map in Hin. destruct Hin as (part & _ & Hs).
  destruct (parsePart_inv part s Hs) as (_ & m2 & m3 & _ & _ & E1 & _).
  apply (matchEntry_name _ _ _ _ E1).
Qed.

Lemma parseSpec_names_are_identifiers_witness :
  isIdentifier (name (mkSpec "--scale" 0 1 0)) = true.
Proof.
  apply (parseSpec_names_are_identifiers
           (Some "--x=-5..5@0;--scale=0..1") (mkSpec "--scale" 0 1 0)).
  vm_compute. right. left. reflexivity.
Defined.

Lemma trimStart_all_space (s : string) :
  allChars isSpace s = true -> trimStart s = EmptyString.
Proof.
  induction s as [|c r IH]; simpl; [reflexivity|].
  intro H. apply andb_true_iff in H. destruct H as [Hc Hr].
  rewrite Hc. apply IH, Hr.
Qed.

Lemma trim_all_space (s : string) :
  allChars isSpace s = true -> trim s = EmptyString.
Proof.
  intro H. unfold trim. rewrite (trimStart_all_space s H). reflexivity.
Qed.

Lemma isSpace_not_semicolon (c : ascii) :
  isSpace c = true -> Ascii.eqb c ";" = false.
Proof.
  destruct c as [[] [] [] [] [] [] [] []]; vm_compute; congruence.
Qed.

Lemma split_all_space (s : string) :
  allChars isSpace s = true -> split ";" s = [s].
Proof.
  induction s as [|c r IH]; simpl; [reflexivity|].
  intro H. apply andb_true_iff in H. destruct H as [Hc Hr].
  rewrite (isSpace_not_semicolon c Hc), (IH Hr). reflexivity.
Qed.

Lemma parseSpec_all_space (ws : string) :
  allChars isSpace ws = true -> parseSpec (Some ws) = [].
Proof.
  intro H. rewrite parseSpec_Some. unfold parts.
  rewrite (split_all_space ws H). simpl.
  rewrite (trim_all_space ws H). reflexivity.
Qed.

(** X16.  Empty parts do no harm: a part of white space only between two
    semicolons, and a semicolon at the end of the declaration, add
    nothing and change no other entry. *)
Theorem parseSpec_empty_parts (a b ws : string) :
  allChars isSpace ws = true ->
  parseSpec (Some (a ++ ";" ++ ws ++ ";" ++ b)%string)
  = parseSpec (Some a) ++ parseSpec (Some b) /\
  parseSpec (Some (a ++ ";" ++ ws)%string) = parseSpec (Some a).
Proof.
  intro H. split.
  - rewrite parseSpec_app, parseSpec_app, (parseSpec_all_space ws H).
    reflexivity.
  - rewrite parseSpec_app, (parseSpec_all_space ws H). apply app_nil_r.
Qed.

Lemma parseSpec_empty_parts_witness :
  parseSpec (Some ("--x=1..2" ++ ";" ++ "  " ++ ";" ++ "--y=3..4")%string)
  = parseSpec (Some "--x=1..2") ++ parseSpec (Some "--y=3..4") /\
  parseSpec (Some ("--x=1..2" ++ ";" ++ "  ")%string)
  = parseSpec (Some "--x=1..2").
Proof.
  apply (parseSpec_empty_parts "--x=1..2" "--y=3..4" "  "). reflexivity.
Defined.

(** X17.  [toNum] gives the default for a missing or empty attribute,
    but [0] for an attribute of white space only, which [Number] reads
    as zero. *)
Theorem toNum_blank (def : Q) :
  toNum None def = def /\
  toNum (Some EmptyString) def = def /\
  (forall s : string,
     isEmpty s = false -> allChars isSpace s = true ->
     toNum (Some s) def = 0).
Proof.
  split; [reflexivity | split; [reflexivity|]].
  intros s Hne Hws. destruct s as [|c r]; [discriminate|].
  unfold toNum, Number. rewrite (trim_all_space _ Hws). reflexivity.
Qed.

Lemma toNum_blank_witness :
  toNum (Some "  ") 1 = 0.
Proof.
  destruct (toNum_blank 1) as (_ & _ & H). apply (H "  "); reflexivity.
Defined.

(** ** The driver: one update per animation frame *)

Lemma listen_requestTick (p : Page) (k : Ticker) :
  ticking k = ticking (ticker p) ->
  consistent p ->
  consistent (fst (listen p (requestTick k))) /\
  ticking (ticker (fst (listen p (requestTick k)))) = true /\
  pending (fst (listen p (requestTick k)))
  = (pending p + countRequests (snd (listen p (requestTick k))))%nat /\
  countUpdates (snd (listen p (requestTick k))) = 0%nat.
Proof.
  unfold consistent, listen, requestTick. intros Hk Hp.
  destruct (ticking k) eqn:E; simpl; rewrite <- Hk in Hp; rewrite Hp.
  - rewrite E. repeat split.
  - repeat split.
Qed.

Lemma listen_nothing (p : Page) :
  fst (listen p (ticker p, [])) = p /\ snd (listen p (ticker p, [])) = [].
Proof.
  unfold listen. simpl. rewrite Nat.add_0_r. destruct p. split; reflexivity.
Qed.

(** What every handler but the frame's does to a consistent page. *)
Lemma dispatch_no_frame (o : DriverOptions) (p : Page) (e : event) :
  isFrame e = false ->
  consistent p ->
  consistent (fst (dispatch o p e)) /\
  (ticking (ticker p) = true \/ alwaysRequests e = true ->
   ticking (ticker (fst (dispatch o p e))) = true) /\
  pending (fst (dispatch o p e))
  = (pending p + countRequests (snd (dispatch o p e)))%nat /\
  countUpdates (snd (dispatch o p e)) = b2n (isLoad e).
Proof.
  intros Hf Hp.
  assert (Req : forall k, ticking k = ticking (ticker p) ->
            consistent (fst (listen p (requestTick k))) /\
            (ticking (ticker p) = true \/ alwaysRequests e = true ->
             ticking (ticker (fst (listen p (requestTick k)))) = true) /\
            pending (fst (listen p (requestTick k)))
            = (pending p + countRequests (snd (listen p (requestTick k))))%nat /\
            countUpdates (snd (listen p (requestTick k))) = 0%nat).
  { intros k Hk. destruct (listen_requestTick p k Hk Hp) as (A & B & C & D).
    split; [exact A | split; [intros _; exact B | split; [exact C | exact D]]]. }
  assert (Idle : consistent p /\
            (ticking (ticker p) = true \/ false = true ->
             ticking (ticker p) = true) /\
            pending p = (pending p + 0)%nat /\ 0%nat = 0%nat).
  { repeat split; [assumption | | lia].
    intros [H|H]; [assumption | discriminate]. }
  destruct e; try discriminate; cbn [dispatch isLoad alwaysRequests b2n].
  - apply Req. reflexivity.
  - unfold handleResize. destruct (negb (smartResize o)).
    + apply Req. reflexivity.
    + cbv zeta. destruct (_ || _).
      * apply Req. reflexivity.
      * destruct (listen_nothing p) as [E1 E2]. rewrite E1, E2. exact Idle.
  - destruct (vvListening (ticker p)); [|exact Idle].
    unfold onVvResize. cbv zeta. destruct (_ || _).
    + apply Req. reflexivity.
    + destruct (listen_nothing p) as [E1 E2]. rewrite E1, E2. exact Idle.
  - apply Req. reflexivity.
  - simpl. destruct Idle as (A & B & C & _). repeat split; try assumption.
  - apply Req. reflexivity.
Qed.

Lemma dispatch_frame (o : DriverOptions) (p : Page) :
  consistent p ->
  consistent (fst (dispatch o p Frame)) /\
  ticking (ticker (fst (dispatch o p Frame))) = false /\
  snd (dispatch o p Frame)
  = if ticking (ticker p) then [CallUpdate] else [].
Proof.
  unfold consistent. intro Hp. cbn [dispatch]. rewrite Hp.
  destruct (ticking (ticker p)) eqn:E; simpl.
  - repeat split.
  - rewrite E. repeat split.
Qed.

Lemma dispatch_consistent (o : DriverOptions) (p : Page) (e : event) :
  consistent p -> consistent (fst (dispatch o p e)).
Proof.
  intro Hp. destruct (isFrame e) eqn:E.
  - destruct e; try discriminate. apply dispatch_frame, Hp.
  - apply dispatch_no_frame; assumption.
Qed.

Lemma dispatchAll_cons (o : DriverOptions) (p : Page) (e : event)
    (es : list event) :
  fst (dispatchAll o p (e :: es)) = fst (dispatchAll o (fst (dispatch o p e)) es) /\
  snd (dispatchAll o p (e :: es))
  = snd (dispatch o p e) ++ snd (dispatchAll o (fst (dispatch o p e)) es).
Proof.
  cbn [dispatchAll]. destruct (dispatch o p e) as [p1 a1]. cbn [fst snd].
  destruct (dispatchAll o p1 es) as [p2 a2]. split; reflexivity.
Qed.

Lemma dispatchAll_consistent (o : DriverOptions) (es : list event) :
  forall p, consistent p -> consistent (fst (dispatchAll o p es)).
Proof.
  induction es as [|e es IH]; intros p Hp; [exact Hp|].
  destruct (dispatchAll_cons o p e es) as [E _]. rewrite E.
  apply IH, dispatch_consistent, Hp.
Qed.

Lemma bind_consistent (o : DriverOptions) (w h : Q) (vv : option (Q * Q)) :
  consistent (mkPage (_bind o w h vv) 0).
Proof. reflexivity. Qed.

(** X18.  Whatever the events, at most one callback waits for the next
    animation frame, and one waits exactly while [ticking] is set. *)
Theorem one_frame_callback
    (o : DriverOptions) (w h : Q) (vv : option (Q * Q)) (es : list event) :
  pending (fst (dispatchAll o (mkPage (_bind o w h vv) 0) es))
  = b2n (ticking (ticker (fst (dispatchAll o (mkPage (_bind o w h vv) 0) es))))
  /\ (pending (fst (dispatchAll o (mkPage (_bind o w h vv) 0) es)) <= 1)%nat.
Proof.
  pose proof (dispatchAll_consistent o es _ (bind_consistent o w h vv)) as H.
  unfold consistent in H. split; [exact H|].
  rewrite H. destruct (ticking _); simpl; lia.
Qed.

Lemma countUpdates_app (a b : list action) :
  countUpdates (a ++ b) = (countUpdates a + countUpdates b)%nat.
Proof. unfold countUpdates. rewrite filter_app. apply length_app. Qed.

Lemma countRequests_app (a b : list action) :
  countRequests (a ++ b) = (countRequests a + countRequests b)%nat.
Proof. unfold countRequests. rewrite filter_app. apply length_app. Qed.

Lemma dispatch_updates (o : DriverOptions) (p : Page) (e : event) :
  consistent p ->
  (countUpdates (snd (dispatch o p e)) <= b2n (isFrame e) + b2n (isLoad e))%nat.
Proof.
  intro Hp. destruct (isFrame e) eqn:E.
  - destruct e; try discriminate.
    destruct (dispatch_frame o p Hp) as (_ & _ & Ea). rewrite Ea.
    destruct (ticking (ticker p)); unfold countUpdates; simpl; lia.
  - destruct (dispatch_no_frame o p e E Hp) as (_ & _ & _ & Eu).
    rewrite Eu. simpl. lia.
Qed.

Lemma dispatchAll_updates (o : DriverOptions) (es : list event) :
  forall p,
    consistent p ->
    (countUpdates (snd (dispatchAll o p es))
     <= List.length (filter isFrame es) + List.length (filter isLoad es))%nat.
Proof.
  induction es as [|e es IH]; intros p Hp; [unfold countUpdates; simpl; lia|].
  destruct (dispatchAll_cons o p e es) as [_ E]. rewrite E, countUpdates_app.
  pose proof (dispatch_updates o p e Hp) as H1.
  pose proof (IH _ (dispatch_consistent o p e Hp)) as H2.
  revert H1 H2. cbn [filter].
  destruct (isFrame e), (isLoad e); cbn [b2n List.length]; lia.
Qed.

(** X19.  [_update] runs at most once per animation frame and once per
    [load] event, however many scroll, resize and observer events there
    are. *)
Theorem updates_throttled
    (o : DriverOptions) (w h : Q) (vv : option (Q * Q)) (es : list event) :
  (countUpdates (snd (dispatchAll o (mkPage (_bind o w h vv) 0) es))
   <= List.length (filter isFrame es) + List.length (filter isLoad es))%nat.
Proof.
  apply dispatchAll_updates, bind_consistent.
Qed.

Lemma burst_requests (o : DriverOptions) (es : list event) :
  forall p,
    consistent p ->
    forallb (fun e => negb (isFrame e)) es = true ->
    consistent (fst (dispatchAll o p es)) /\
    pending (fst (dispatchAll o p es))
    = (pending p + countRequests (snd (dispatchAll o p es)))%nat /\
    (ticking (ticker p) = true \/ existsb alwaysRequests es = true ->
     ticking (ticker (fst (dispatchAll o p es))) = true).
Proof.
  induction es as [|e es IH]; intros p Hp Hnf.
  - unfold countRequests. simpl. repeat split; [exact Hp | lia |].
    intros [H|H]; [exact H | discriminate].
  - cbn [forallb] in Hnf. apply andb_true_iff in Hnf.
    destruct Hnf as [He Hes]. apply negb_true_iff in He.
    destruct (dispatchAll_cons o p e es) as [E1 E2]. rewrite E1, E2.
    destruct (dispatch_no_frame o p e He Hp) as (C1 & T1 & P1 & _).
    destruct (IH _ C1 Hes) as (C2 & P2 & T2).
    rewrite countRequests_app. repeat split; [exact C2 | lia |].
    intros [H|H]; apply T2.
    + left. apply T1. left. exact H.
    + cbn [existsb] in H. apply orb_true_iff in H. destruct H as [H|H].
      * left. apply T1. right. exact H.
      * right. exact H.
Qed.

(** X20.  Between two frames, a burst of events with a scroll, an
    orientation change or an observer notification among them calls
    [requestAnimationFrame] at most once, and the next frame runs
    [_update] exactly once. *)
Theorem burst_coalesced
    (o : DriverOptions) (w h : Q) (vv : option (Q * Q))
    (before burst : list event) :
  forallb (fun e => negb (isFrame e)) burst = true ->
  existsb alwaysRequests burst = true ->
  (countRequests
     (snd (dispatchAll o
             (fst (dispatchAll o (mkPage (_bind o w h vv) 0) before)) burst))
   <= 1)%nat /\
  snd (dispatch o
         (fst (dispatchAll o
                 (fst (dispatchAll o (mkPage (_bind o w h vv) 0) before))
                 burst))
         Frame)
  = [CallUpdate].
Proof.
  intros Hnf Hreq.
  pose proof (dispatchAll_consistent o before _ (bind_consistent o w h vv))
    as Hp.
  destruct (burst_requests o burst _ Hp Hnf) as (C & P & T).
  split.
  - unfold consistent in C. rewrite C in P.
    destruct (ticking _) in P; simpl in P; lia.
  - destruct (dispatch_frame o _ C) as (_ & _ & E). rewrite E.
    rewrite T; [reflexivity | right; exact Hreq].
Qed.

Lemma burst_coalesced_witness :
  (countRequests
     (snd (dispatchAll DRIVER_DEFAULTS
             (fst (dispatchAll DRIVER_DEFAULTS
                     (mkPage (_bind DRIVER_DEFAULTS 400 800 None) 0)
                     [Scroll; Frame]))
             [Scroll; Resize 400 700; Scroll; Load; Observed]))
   <= 1)%nat /\
  snd (dispatch DRIVER_DEFAULTS
         (fst (dispatchAll DRIVER_DEFAULTS
                 (fst (dispatchAll DRIVER_DEFAULTS
                         (mkPage (_bind DRIVER_DEFAULTS 400 800 None) 0)
                         [Scroll; Frame]))
                 [Scroll; Resize 400 700; Scroll; Load; Observed]))
         Frame)
  = [CallUpdate].
Proof.
  apply (burst_coalesced DRIVER_DEFAULTS 400 800 None [Scroll; Frame]
           [Scroll; Resize 400 700; Scroll; Load; Observed]);
    reflexivity.
Defined.

(** X21.  With [smartResize] on, resize events that keep the width and
    stay within [resizeMinDelta] of the last accepted height request no
    tick and leave that height as the baseline, however many they are. *)
Theorem small_resizes_ignored
    (o : DriverOptions) (p : Page) (sizes : list (Q * Q)) :
  smartResize o = true ->
  (forall wh, In wh sizes ->
     fst wh == lastW (ticker p) /\
     Qabs.Qabs (snd wh - lastH (ticker p)) < resizeMinDelta o) ->
  dispatchAll o p (resizeEvents sizes) = (p, []).
Proof.
  intros Hs. induction sizes as [|[w h] sizes IH]; intro Hall.
  - reflexivity.
  - assert (E : dispatch o p (Resize w h) = (p, [])).
    { destruct (Hall (w, h) (or_introl eq_refl)) as [Hw Hh].
      cbn [fst snd] in Hw, Hh.
      cbn [dispatch]. unfold handleResize. rewrite Hs. cbv zeta.
      cbn [negb]. apply Qeq_bool_iff in Hw. rewrite Hw.
      apply Qgeb_lt in Hh. rewrite Hh. cbn [negb orb].
      destruct (listen_nothing p) as [E1 E2].
      rewrite (surjective_pairing (listen p (ticker p, []))), E1, E2.
      reflexivity. }
    unfold resizeEvents. cbn [map dispatchAll fst snd]. rewrite E.
    fold (resizeEvents sizes). rewrite IH; [reflexivity|].
    intros wh Hin. apply Hall. right. exact Hin.
Qed.

Lemma small_resizes_ignored_witness :
  dispatchAll DRIVER_DEFAULTS (mkPage (_bind DRIVER_DEFAULTS 400 800 None) 0)
    (resizeEvents [(400, 800 + (1 # 2)); (400, 800 - (3 # 4)); (400, 800)])
  = (mkPage (_bind DRIVER_DEFAULTS 400 800 None) 0, []).
Proof.
  apply (small_resizes_ignored DRIVER_DEFAULTS
           (mkPage (_bind DRIVER_DEFAULTS 400 800 None) 0)
           [(400, 800 + (1 # 2)); (400, 800 - (3 # 4)); (400, 800)]).
  - reflexivity.
  - intros wh Hin. simpl in Hin.
    destruct Hin as [<- | [<- | [<- | []]]]; split; reflexivity.
Defined.

(** ** Moving an element up, in exact arithmetic *)





(** * Properties of the code on binary64 numbers *)

Import PrimFloat.
Import SpecFloat FloatOps FloatAxioms.

(** ** The order of binary64 numbers *)

Lemma SFcompare_key (f1 f2 : spec_float) :
  f1 <> S754_nan -> f2 <> S754_nan ->
  (SFcompare f1 f2 = Some Lt <-> klt (key f1) (key f2)) /\
  (SFcompare f1 f2 = Some Gt <-> klt (key f2) (key f1)) /\
  (SFcompare f1 f2 <> None).
Proof.
  intros H1 H2.
  destruct f1 as [s1|s1| |s1 m1 e1]; try congruence;
  destruct f2 as [s2|s2| |s2 m2 e2]; try congruence;
  try destruct s1; try destruct s2; unfold klt; cbn;
  try (repeat split; intros; try discriminate; try lia; fail).
  - rewrite Pos.compare_cont_spec. cbn.
    destruct (Z.compare_spec e1 e2); destruct (Pos.compare_spec m1 m2);
      cbn; repeat split; intros; try discriminate; try reflexivity; lia.
  - rewrite Pos.compare_cont_spec. cbn.
    destruct (Z.compare_spec e1 e2); destruct (Pos.compare_spec m1 m2);
      cbn; repeat split; intros; try discriminate; try reflexivity; lia.
Qed.

Lemma is_nan_spec (x : float) :
  is_nan x = true <-> Prim2SF x = S754_nan.
Proof.
  unfold is_nan. rewrite eqb_spec. unfold SFeqb.
  destruct (Prim2SF x) as [s|s| |s m e] eqn:E; cbn.
  - split; discriminate.
  - destruct s; split; discriminate.
  - split; reflexivity.
  - rewrite Pos.compare_cont_spec, Z.compare_refl, Pos.compare_refl.
    destruct s; cbn; split; discriminate.
Qed.

Lemma not_nan_spec (x : float) :
  is_nan x = false <-> Prim2SF x <> S754_nan.
Proof.
  rewrite <- is_nan_spec. destruct (is_nan x); split; congruence.
Qed.

Lemma ltb_true_key (x y : float) :
  (x <? y)%float = true ->
  is_nan x = false /\ is_nan y = false /\ klt (fkey x) (fkey y).
Proof.
  rewrite ltb_spec. unfold SFltb, fkey. intro H.
  assert (Hx : Prim2SF x <> S754_nan).
  { intro E. rewrite E in H. discriminate. }
  assert (Hy : Prim2SF y <> S754_nan).
  { intro E. rewrite E in H. destruct (Prim2SF x); discriminate. }
  destruct (SFcompare_key _ _ Hx Hy) as (L & _ & _).
  repeat split; try (apply not_nan_spec; assumption).
  apply L. destruct (SFcompare (Prim2SF x) (Prim2SF y)) as [[]|];
    try discriminate; reflexivity.
Qed.

Lemma key_ltb (x y : float) :
  is_nan x = false -> is_nan y = false ->
  klt (fkey x) (fkey y) -> (x <? y)%float = true.
Proof.
  intros Hx Hy H. apply not_nan_spec in Hx. apply not_nan_spec in Hy.
  rewrite ltb_spec. unfold SFltb.
  destruct (SFcompare_key _ _ Hx Hy) as (L & _ & _).
  apply L in H. rewrite H. reflexivity.
Qed.

Lemma ltb_false_key (x y : float) :
  (x <? y)%float = false ->
  is_nan x = false -> is_nan y = false -> ~ klt (fkey x) (fkey y).
Proof.
  intros H Hx Hy K. rewrite (key_ltb x y Hx Hy K) in H. discriminate.
Qed.

Lemma leb_true_key (x y : float) :
  (x <=? y)%float = true ->
  is_nan x = false /\ is_nan y = false /\ kle (fkey x) (fkey y).
Proof.
  rewrite leb_spec. unfold SFleb, fkey, kle. intro H.
  assert (Hx : Prim2SF x <> S754_nan).
  { intro E. rewrite E in H. discriminate. }
  assert (Hy : Prim2SF y <> S754_nan).
  { intro E. rewrite E in H. destruct (Prim2SF x); discriminate. }
  destruct (SFcompare_key _ _ Hx Hy) as (_ & G & _).
  repeat split; try (apply not_nan_spec; assumption).
  intro K. apply G in K. rewrite K in H. discriminate.
Qed.

Lemma key_leb (x y : float) :
  is_nan x = false -> is_nan y = false ->
  kle (fkey x) (fkey y) -> (x <=? y)%float = true.
Proof.
  intros Hx Hy H. apply not_nan_spec in Hx. apply not_nan_spec in Hy.
  rewrite leb_spec. unfold SFleb.
  destruct (SFcompare_key _ _ Hx Hy) as (_ & G & N).
  destruct (SFcompare (Prim2SF x) (Prim2SF y)) as [[]|];
    try reflexivity; [|congruence].
  exfalso. apply H, G. reflexivity.
Qed.

(** Turns the tests of the context into facts on keys, and decides a
    goal on keys. *)
Ltac key_facts :=
  repeat match goal with
  | H : (?x <? ?y)%float = true |- _ =>
      let H1 := fresh in let H2 := fresh in let H3 := fresh in
      destruct (ltb_true_key x y H) as (H1 & H2 & H3); clear H
  | H : (?x <=? ?y)%float = true |- _ =>
      let H1 := fresh in let H2 := fresh in let H3 := fresh in
      destruct (leb_true_key x y H) as (H1 & H2 & H3); clear H
  end;
  repeat match goal with
  | H : (?x <? ?y)%float = false, Hx : is_nan ?x = false,
    Hy : is_nan ?y = false |- _ =>
      let K := fresh in
      pose proof (ltb_false_key x y H Hx Hy) as K; clear H
  end.

Ltac key_arith :=
  unfold kle, klt in *;
  repeat match goal with
  | H : context [fkey ?x] |- _ =>
      let c := fresh "c" in let e := fresh "e" in let m := fresh "m" in
      destruct (fkey x) as [[c e] m]
  | |- context [fkey ?x] =>
      let c := fresh "c" in let e := fresh "e" in let m := fresh "m" in
      destruct (fkey x) as [[c e] m]
  end;
  cbn [fst snd] in *; lia.

Lemma ltb_trans (x y z : float) :
  (x <? y)%float = true -> (y <? z)%float = true -> (x <? z)%float = true.
Proof.
  intros H1 H2. key_facts. apply key_ltb; try assumption. key_arith.
Qed.

(** ** The clamp of [update] on binary64 numbers *)

Lemma is_nan_nan : is_nan nan = true.
Proof. reflexivity. Qed.

Lemma Math_min_cases (a b : float) :
  is_nan a = false -> is_nan b = false ->
  (B64.Math_min a b = a /\ kle (fkey a) (fkey b)) \/
  (B64.Math_min a b = b /\ kle (fkey b) (fkey a)).
Proof.
  intros Ha Hb. unfold B64.Math_min. rewrite Ha, Hb. cbn [orb].
  destruct (a <? b)%float eqn:E1; [|destruct (b <? a)%float eqn:E2].
  - left. split; [reflexivity|]. key_facts. key_arith.
  - right. split; [reflexivity|]. key_facts. key_arith.
  - key_facts. destruct (B64.isNegZero a); [left | right];
      (split; [reflexivity | key_arith]).
Qed.

Lemma Math_max_cases (a b : float) :
  is_nan a = false -> is_nan b = false ->
  (B64.Math_max a b = a /\ kle (fkey b) (fkey a)) \/
  (B64.Math_max a b = b /\ kle (fkey a) (fkey b)).
Proof.
  intros Ha Hb. unfold B64.Math_max. rewrite Ha, Hb. cbn [orb].
  destruct (a <? b)%float eqn:E1; [|destruct (b <? a)%float eqn:E2].
  - right. split; [reflexivity|]. key_facts. key_arith.
  - left. split; [reflexivity|]. key_facts. key_arith.
  - key_facts. destruct (B64.isPosZero a); [left | right];
      (split; [reflexivity | key_arith]).
Qed.

Lemma reclamp_nan (v lo hi : float) :
  is_nan v = true -> is_nan (B64.Math_max (B64.Math_min v hi) lo) = true.
Proof.
  intro H. unfold B64.Math_min. rewrite H. cbn [orb].
  unfold B64.Math_max. rewrite is_nan_nan. reflexivity.
Qed.

(** With the bounds reversed the clamp gives [lo] for every number. *)
Lemma reclamp_reversed_binary64 (v lo hi : float) :
  (hi <? lo)%float = true -> is_nan v = false ->
  B64.Math_max (B64.Math_min v hi) lo = lo.
Proof.
  intros H Hv. key_facts.
  assert (Hm : is_nan (B64.Math_min v hi) = false /\
               klt (fkey (B64.Math_min v hi)) (fkey lo)).
  { destruct (Math_min_cases v hi Hv) as [[E K]|[E K]]; try assumption;
      rewrite E; split; try assumption; key_arith. }
  destruct Hm as [Hn Hk].
  unfold B64.Math_max. rewrite Hn. cbn [orb].
  match goal with H : is_nan lo = false |- _ => rewrite H end.
  rewrite (key_ltb _ lo); try assumption. reflexivity.
Qed.

(** With the bounds in order the clamp of a number lies between them. *)
Lemma reclamp_bounds_binary64 (v lo hi : float) :
  (lo <=? hi)%float = true -> is_nan v = false ->
  (lo <=? B64.Math_max (B64.Math_min v hi) lo)%float = true /\
  (B64.Math_max (B64.Math_min v hi) lo <=? hi)%float = true.
Proof.
  intros H Hv. key_facts.
  assert (Hm : is_nan (B64.Math_min v hi) = false /\
               kle (fkey (B64.Math_min v hi)) (fkey hi)).
  { destruct (Math_min_cases v hi Hv) as [[E K]|[E K]]; try assumption;
      rewrite E; split; try assumption; key_arith. }
  destruct Hm as [Hn Hk].
  destruct (Math_max_cases (B64.Math_min v hi) lo Hn) as [[E K]|[E K]];
    try assumption; rewrite E; split; apply key_leb; try assumption;
    key_arith.
Qed.

(** ** What [update] sets, on binary64 numbers *)

Lemma valuesOf_app_binary64 (a b : list B64.effect) :
  B64.valuesOf (a ++ b) = B64.valuesOf a ++ B64.valuesOf b.
Proof. apply flat_map_app. Qed.

Lemma valuesOf_SetProperty_binary64 (f : B64.Spec -> float) (l : list B64.Spec) :
  B64.valuesOf (map (fun s => B64.SetProperty (B64.name s) (f s)) l)
  = map (fun s => (B64.name s, f s)) l.
Proof.
  induction l as [|s l IH]; simpl; [reflexivity | now rewrite <- IH].
Qed.

Lemma valuesOf_when_binary64 (b : bool) (type : string) (v : float) :
  B64.valuesOf (B64.when b (B64.DispatchEvent type v)) = [].
Proof. destruct b; reflexivity. Qed.

Lemma update_values_binary64 (this : B64.Instance) (el : B64.Layout) :
  B64.valuesOf (snd (B64.update this el))
  = map (fun s => (B64.name s,
                   B64.appliedValue this (B64.progressOf this el) s))
      (B64.specs this).
Proof.
  unfold B64.update, B64.updateClasses.
  cbn -[B64.progressOf B64.appliedValue B64.gtb B64.geb ltb sub B64.when].
  rewrite !valuesOf_app_binary64, valuesOf_SetProperty_binary64.
  cbn -[B64.progressOf B64.appliedValue B64.gtb B64.geb ltb sub B64.when].
  rewrite !valuesOf_app_binary64, !valuesOf_when_binary64.
  rewrite app_nil_r. reflexivity.
Qed.

Lemma update_value_at_binary64
    (this : B64.Instance) (el : B64.Layout) (i : nat) (s : B64.Spec) :
  nth_error (B64.specs this) i = Some s ->
  nth_error (B64.valuesOf (snd (B64.update this el))) i
  = Some (B64.name s, B64.appliedValue this (B64.progressOf this el) s).
Proof.
  intro H. rewrite update_values_binary64, nth_error_map, H. reflexivity.
Qed.

(** ** Claims on [computeProgress], as the binary64 code has them *)

#[local] Open Scope float_scope.

(** C1 (as the code has it).  [computeProgress] returns exactly [0]
    whenever the distance [A] that it computes, the element's top minus
    the rounded product [start * viewportHeight], is [> 0], and exactly
    [1] whenever that test fails and the distance [B] that it computes
    is [<= 0]. *)
Theorem computeProgress_guards_binary64
    (el : B64.Layout) (st en : float) :
  (B64.gtb (B64.distA el st) 0 = true ->
   B64.computeProgress el st en = 0) /\
  (B64.gtb (B64.distA el st) 0 = false ->
   (B64.distB el en <=? 0) = true ->
   B64.computeProgress el st en = 1).
Proof.
  unfold B64.computeProgress, B64.distA, B64.distB. cbv zeta. split.
  - intro H. rewrite H. reflexivity.
  - intros HA HB. rewrite HA, HB. reflexivity.
Qed.

Lemma computeProgress_guards_binary64_witness :
  (B64.gtb (B64.distA B64.layoutBefore 0) 0 = true /\
   B64.computeProgress B64.layoutBefore 0 1 = 0) /\
  (B64.gtb (B64.distA B64.layoutAfter 0) 0 = false /\
   (B64.distB B64.layoutAfter 1 <=? 0) = true /\
   B64.computeProgress B64.layoutAfter 0 1 = 1) /\
  (B64.gtb (B64.distA B64.layoutRoundedLine 0.15) 0 = false /\
   (B64.distB B64.layoutRoundedLine 1 <=? 0) = true /\
   B64.computeProgress B64.layoutRoundedLine 0.15 1 = 1) /\
  (B64.gtb (B64.distA B64.layoutRoundedDown 0.58) 0 = true /\
   B64.computeProgress B64.layoutRoundedDown 0.58 1 = 0).
Proof.
  assert (H1 : B64.gtb (B64.distA B64.layoutBefore 0) 0 = true)
    by reflexivity.
  assert (H2 : B64.gtb (B64.distA B64.layoutAfter 0) 0 = false)
    by reflexivity.
  assert (H3 : (B64.distB B64.layoutAfter 1 <=? 0) = true) by reflexivity.
  assert (H4 : B64.gtb (B64.distA B64.layoutRoundedLine 0.15) 0 = false)
    by reflexivity.
  assert (H5 : (B64.distB B64.layoutRoundedLine 1 <=? 0) = true)
    by reflexivity.
  assert (H6 : B64.gtb (B64.distA B64.layoutRoundedDown 0.58) 0 = true)
    by reflexivity.
  split; [split; [exact H1|] | split; [split; [exact H2 | split; [exact H3|]]
         | split; [split; [exact H4 | split; [exact H5|]] | split; [exact H6|]]]].
  - exact (proj1 (computeProgress_guards_binary64 B64.layoutBefore 0 1) H1).
  - exact (proj2 (computeProgress_guards_binary64 B64.layoutAfter 0 1) H2 H3).
  - exact (proj2 (computeProgress_guards_binary64 B64.layoutRoundedLine 0.15 1)
             H4 H5).
  - exact (proj1 (computeProgress_guards_binary64 B64.layoutRoundedDown 0.58 1)
             H6).
Defined.

(** C1 as stated fails: an element that lies wholly between the two
    lines has [elementBottom <= end * viewportHeight], and its progress
    is [0], not [1]. *)
Lemma computeProgress_guards_counterexample :
  (B64.rect_bottom B64.layoutInView
   <=? 1 * B64.viewportHeight B64.layoutInView) = true /\
  B64.computeProgress B64.layoutInView 0 1 = 0 /\
  (B64.computeProgress B64.layoutInView 0 1 =? 1) = false.
Proof. repeat split. Qed.







(** ** Claims on the clamp option *)





(** ** Claims on the values that [update] applies, on binary64 numbers *)

(** C2 (as the code has it).  For a spec with [min > max], the value
    that [update] applies is [Math.max(Math.min(v, max), min)], which is
    [min] whenever the value [v] before the clamp, the held [init] or
    the result of [mapByOrigin], is a number, and NaN when [v] is NaN:
    it does not follow the mapped value. *)
Theorem update_reversed_range_binary64
    (this : B64.Instance) (el : B64.Layout) (i : nat) (s : B64.Spec) :
  nth_error (B64.specs this) i = Some s ->
  (B64.max s <? B64.min s) = true ->
  exists v : float,
    nth_error (B64.valuesOf (snd (B64.update this el))) i
    = Some (B64.name s, v) /\
    (is_nan (B64.rawValue this (B64.progressOf this el) s) = false ->
     v = B64.min s) /\
    (is_nan (B64.rawValue this (B64.progressOf this el) s) = true ->
     is_nan v = true).
Proof.
  intros Hs Hrev.
  exists (B64.appliedValue this (B64.progressOf this el) s).
  split; [apply update_value_at_binary64, Hs|].
  unfold B64.appliedValue. cbv zeta. split; intro Hv.
  - apply reclamp_reversed_binary64; assumption.
  - apply reclamp_nan, Hv.
Qed.

Lemma update_reversed_range_binary64_witness :
  nth_error (B64.specs B64.reversedInstance) 0 = Some (B64.mkSpec "--x" 5 0 0) /\
  (B64.max (B64.mkSpec "--x" 5 0 0) <? B64.min (B64.mkSpec "--x" 5 0 0)) = true /\
  exists v : float,
    nth_error
      (B64.valuesOf (snd (B64.update B64.reversedInstance B64.layoutHalfWay))) 0
    = Some ("--x"%string, v) /\
    (is_nan (B64.rawValue B64.reversedInstance
               (B64.progressOf B64.reversedInstance B64.layoutHalfWay)
               (B64.mkSpec "--x" 5 0 0)) = false ->
     v = 5) /\
    (is_nan (B64.rawValue B64.reversedInstance
               (B64.progressOf B64.reversedInstance B64.layoutHalfWay)
               (B64.mkSpec "--x" 5 0 0)) = true ->
     is_nan v = true).
Proof.
  assert (H1 : nth_error (B64.specs B64.reversedInstance) 0
               = Some (B64.mkSpec "--x" 5 0 0)) by reflexivity.
  assert (H2 : (B64.max (B64.mkSpec "--x" 5 0 0)
                <? B64.min (B64.mkSpec "--x" 5 0 0)) = true) by reflexivity.
  split; [exact H1 | split; [exact H2|]].
  exact (update_reversed_range_binary64 B64.reversedInstance
           B64.layoutHalfWay 0 (B64.mkSpec "--x" 5 0 0) H1 H2).
Defined.

(** C2 as stated fails: for the parsed entry [--x=5..0@3] with origin
    [min], half way through the mapped value is [2.5], which lies in
    [[0, 5]], and the value applied is [5]. *)
Lemma update_reversed_range_binary64_counterexample :
  B64.specs B64.reversedInstance = [B64.mkSpec "--x" 5 0 0] /\
  B64.origin B64.reversedInstance = "min"%string /\
  B64.progressOf B64.reversedInstance B64.layoutHalfWay = 0.5 /\
  B64.mapByOrigin 0.5 (B64.mkSpec "--x" 5 0 0) "min" = 2.5 /\
  (0 <=? 2.5) = true /\ (2.5 <=? 5) = true /\
  B64.valuesOf (snd (B64.update B64.reversedInstance B64.layoutHalfWay))
  = [("--x"%string, 5)] /\
  (5 =? 2.5) = false.
Proof. repeat split. Qed.

(** X5.  For a spec with [min <= max], the value that [update] sets
    lies in [[min, max]] whenever the value before the clamp is a
    number, and is NaN when that value is NaN; this holds for every
    instance, option set, origin and layout. *)
Theorem update_value_in_bounds_binary64
    (this : B64.Instance) (el : B64.Layout) (i : nat) (s : B64.Spec) :
  nth_error (B64.specs this) i = Some s ->
  (B64.min s <=? B64.max s) = true ->
  exists v : float,
    nth_error (B64.valuesOf (snd (B64.update this el))) i
    = Some (B64.name s, v) /\
    (is_nan (B64.rawValue this (B64.progressOf this el) s) = false ->
     (B64.min s <=? v) = true /\ (v <=? B64.max s) = true) /\
    (is_nan (B64.rawValue this (B64.progressOf this el) s) = true ->
     is_nan v = true).
Proof.
  intros Hs Hord.
  exists (B64.appliedValue this (B64.progressOf this el) s).
  split; [apply update_value_at_binary64, Hs|].
  unfold B64.appliedValue. cbv zeta. split; intro Hv.
  - apply reclamp_bounds_binary64; assumption.
  - apply reclamp_nan, Hv.
Qed.

Lemma update_value_in_bounds_binary64_witness :
  exists v : float,
    nth_error
      (B64.valuesOf (snd (B64.update B64.plainInstance B64.layoutHalfWay))) 1
    = Some ("--scale"%string, v) /\
    (is_nan (B64.rawValue B64.plainInstance
               (B64.progressOf B64.plainInstance B64.layoutHalfWay)
               (B64.mkSpec "--scale" 0 1 0)) = false ->
     (0 <=? v) = true /\ (v <=? 1) = true) /\
    (is_nan (B64.rawValue B64.plainInstance
               (B64.progressOf B64.plainInstance B64.layoutHalfWay)
               (B64.mkSpec "--scale" 0 1 0)) = true ->
     is_nan v = true).
Proof.
  apply (update_value_in_bounds_binary64 B64.plainInstance B64.layoutHalfWay
           1 (B64.mkSpec "--scale" 0 1 0)); reflexivity.
Defined.

(** ** Claims on [mapByOrigin], on binary64 numbers *)

Lemma finite_spec (x : float) :
  B64.finite x = true ->
  (exists s, Prim2SF x = S754_zero s) \/
  (exists s m e, Prim2SF x = S754_finite s m e).
Proof.
  unfold B64.finite. rewrite classify_spec. unfold SF64classify, SFclassify.
  destruct (Prim2SF x) as [s|s| |s m e].
  - intros _. left. exists s. reflexivity.
  - destruct s; discriminate.
  - discriminate.
  - intros _. right. exists s, m, e. reflexivity.
Qed.

(** Zero times a finite number is a zero. *)
Lemma mul_zero_finite (x : float) :
  B64.finite x = true -> exists s, Prim2SF (0 * x) = S754_zero s.
Proof.
  intro H. rewrite mul_spec.
  change (Prim2SF 0) with (S754_zero false).
  destruct (finite_spec x H) as [[s E] | (s & m & e & E)]; rewrite E;
    eexists; reflexivity.
Qed.

Lemma SFeqb_refl (f : spec_float) : f <> S754_nan -> SFeqb f f = true.
Proof.
  intro H. unfold SFeqb. destruct f as [s|s| |s m e]; cbn.
  - reflexivity.
  - destruct s; reflexivity.
  - congruence.
  - rewrite Pos.compare_cont_spec, Z.compare_refl, Pos.compare_refl.
    destruct s; reflexivity.
Qed.

(** Adding a zero to a number gives that number. *)
Lemma add_zero_eqb (y z : float) (s : bool) :
  is_nan y = false -> Prim2SF z = S754_zero s -> (y + z =? y) = true.
Proof.
  intros Hy Hz. apply not_nan_spec in Hy.
  rewrite eqb_spec, add_spec, Hz. unfold SF64add, SFadd.
  destruct (Prim2SF y) as [sy|sy| |sy m e] eqn:E.
  - destruct sy, s; reflexivity.
  - destruct sy; reflexivity.
  - congruence.
  - apply SFeqb_refl. discriminate.
Qed.

Lemma add_zero_product (y x : float) :
  is_nan y = false -> B64.finite x = true -> (y + 0 * x =? y) = true.
Proof.
  intros Hy Hx. destruct (mul_zero_finite x Hx) as [s Hs].
  apply (add_zero_eqb y (0 * x) s Hy Hs).
Qed.

(** C9 (as the code has it).  [mapByOrigin] computes the three
    formulas on binary64 numbers; at [t = 0] it gives [min] in the
    [min] mode and [init] in the [init] mode, and at [t = 0.5] it gives
    [(min + max) / 2] in the [center] mode, whenever the difference that
    [t] multiplies is finite. *)
Theorem mapByOrigin_formulas_binary64 (t : float) (s : B64.Spec) :
  (B64.mapByOrigin t s "min"
   = B64.min s + t * (B64.max s - B64.min s) /\
   B64.mapByOrigin t s "center"
   = (B64.min s + B64.max s) / 2
     + (t - 0.5) * (B64.max s - B64.min s) /\
   B64.mapByOrigin t s "init"
   = B64.init s + t * (B64.max s - B64.init s)) /\
  (B64.finite (B64.max s - B64.min s) = true ->
   is_nan (B64.min s) = false ->
   (B64.mapByOrigin 0 s "min" =? B64.min s) = true) /\
  (B64.finite (B64.max s - B64.init s) = true ->
   is_nan (B64.init s) = false ->
   (B64.mapByOrigin 0 s "init" =? B64.init s) = true) /\
  (B64.finite (B64.max s - B64.min s) = true ->
   is_nan ((B64.min s + B64.max s) / 2) = false ->
   (B64.mapByOrigin 0.5 s "center" =? (B64.min s + B64.max s) / 2) = true).
Proof.
  split; [repeat split|].
  split; [|split]; intros Hf Hn.
  - apply add_zero_product; assumption.
  - apply add_zero_product; assumption.
  - unfold B64.mapByOrigin. cbn [String.eqb Ascii.eqb Bool.eqb]. cbv zeta.
    change (0.5 - 0.5) with 0. apply add_zero_product; assumption.
Qed.

Lemma mapByOrigin_formulas_binary64_witness :
  (B64.mapByOrigin 0 (B64.mkSpec "--x" (-5) (-1.7) (-3)) "min" =? -5) = true /\
  (B64.mapByOrigin 0 (B64.mkSpec "--x" (-5) (-1.7) (-3)) "init" =? -3) = true /\
  (B64.mapByOrigin 0.5 (B64.mkSpec "--x" (-5) (-1.7) (-3)) "center"
   =? (-5 + -1.7) / 2) = true.
Proof.
  destruct (mapByOrigin_formulas_binary64 0
              (B64.mkSpec "--x" (-5) (-1.7) (-3))) as (_ & H1 & H2 & H3).
  split; [apply H1; reflexivity | split; [apply H2 | apply H3]];
    reflexivity.
Defined.

(** C9 as stated fails at [t = 1], and at [t = 0] in the [center]
    mode: for the range [-5..-1.7] the [min] and [init] modes give
    [-1.7000000000000002] at [t = 1], and for [-4.8..-4.5] the [center]
    mode gives [-4.8000000000000007] at [t = 0]. *)
Lemma mapByOrigin_endpoints_counterexample :
  B64.mapByOrigin 1 (B64.mkSpec "--x" (-5) (-1.7) (-5)) "min"
  = -1.7000000000000002 /\
  (B64.mapByOrigin 1 (B64.mkSpec "--x" (-5) (-1.7) (-5)) "min" =? -1.7)
  = false /\
  (B64.mapByOrigin 1 (B64.mkSpec "--x" (-5) (-1.7) (-5)) "init" =? -1.7)
  = false /\
  B64.mapByOrigin 0 (B64.mkSpec "--y" (-4.8) (-4.5) (-4.8)) "center"
  = -4.8000000000000007 /\
  (B64.mapByOrigin 0 (B64.mkSpec "--y" (-4.8) (-4.5) (-4.8)) "center" =? -4.8)
  = false.
Proof. repeat split. Qed.
